(** * Live label overlay session (main.py): a shallow embedding

    The program reads frames from a camera, sends each one to a remote
    labelling service, draws the returned labels on the frame and shows it,
    until the camera stops delivering frames or the user presses [q].

    Python integers are [Z]; Python floats are [spec_float] (sign, mantissa,
    exponent, with zeros, infinities and nan); strings are [string].  The calls
    to the camera, the encoder, the service, the display and the keyboard are
    answered by a scripted world, one record per loop iteration, and every
    call is recorded in a trace of events. *)

From Stdlib Require Import ZArith List String Ascii Bool Lia.
From Stdlib Require Import Floats.SpecFloat Sorted.
From Stdlib Require Import DecimalString.
From Stdlib Require DecimalFacts DecimalPos DecimalN.
Import ListNotations.
Local Open Scope string_scope.
Local Open Scope list_scope.
Local Open Scope Z_scope.

(** ** Exceptions *)

Module Exn.

(** The handlers of [main] and of the loop tell three families apart:
    [RuntimeError], the other subclasses of [Exception], and the
    exceptions that derive from [BaseException] only. *)
Inductive exn_class : Type :=
| RuntimeError
| OtherException
| SystemExit
| OtherBaseException.

Record exn : Type := mkExn { class_of : exn_class; message : string }.

(** [isinstance(e, Exception)] *)
Definition is_Exception (e : exn) : bool :=
  match class_of e with
  | RuntimeError | OtherException => true
  | SystemExit | OtherBaseException => false
  end.

(** [isinstance(e, RuntimeError)] *)
Definition is_RuntimeError (e : exn) : bool :=
  match class_of e with
  | RuntimeError => true
  | _ => false
  end.

(** What a call into a library gives back: a value or a raised exception. *)
Inductive result (A : Type) : Type :=
| Ret (a : A)
| Exc (e : exn).
Arguments Ret {A} a.
Arguments Exc {A} e.

End Exn.
Export Exn.

(** ** Numbers as text *)

Module Fmt.

(** [str(n)] for an integer. *)
Definition str_int (n : Z) : string :=
  match n with
  | Zneg p => ("-" ++ NilZero.string_of_uint (Pos.to_uint p))%string
  | _ => NilZero.string_of_uint (N.to_uint (Z.to_N n))
  end.

(** Nearest integer to [num / den] ([den] positive), ties to the even
    neighbour: the rounding of Python's float formatting. *)
Definition round_half_even (num den : Z) : Z :=
  let q := num / den in
  let r := num mod den in
  if 2 * r <? den then q
  else if den <? 2 * r then q + 1
  else if Z.even q then q else q + 1.

(** Ten times the magnitude [m * 2^e], rounded to an integer. *)
Definition tenths (m : positive) (e : Z) : Z :=
  if 0 <=? e then 10 * Zpos m * 2 ^ e
  else round_half_even (10 * Zpos m) (2 ^ (- e)).

Definition sign_str (s : bool) : string := if s then "-" else "".

(** A count of tenths written with one digit after the point. *)
Definition fixed1 (n : Z) : string :=
  (str_int (n / 10) ++ "." ++ str_int (n mod 10))%string.

(** [f"{x:.1f}"] for a float [x]. *)
Definition format_1f (x : spec_float) : string :=
  match x with
  | S754_nan => "nan"
  | S754_infinity s => (sign_str s ++ "inf")%string
  | S754_zero s => (sign_str s ++ "0.0")%string
  | S754_finite s m e => (sign_str s ++ fixed1 (tenths m e))%string
  end.

End Fmt.
Export Fmt.

(** ** Frames, labels and drawing *)

Definition colour : Type := Z * Z * Z.
Definition point : Type := Z * Z.

(** What [cv2.rectangle] and [cv2.putText] were asked to draw. *)
Inductive draw_op : Type :=
| Rectangle (pt1 pt2 : point) (color : colour) (thickness : Z)
| PutText (text : string) (org : point) (fontFace : Z)
          (fontScale : spec_float) (color : colour) (thickness : Z).

(** A frame: the pixels the camera delivered and, in order, what has been
    drawn over them since (the array is changed in place by the drawing
    calls; here each call returns the changed frame). *)
Record Frame : Type := mkFrame {
  pixels : list (list colour);
  overlay : list draw_op
}.

(** A detection as the service returns it: [{'Name': ..., 'Confidence': ...}]. *)
Record Label : Type := mkLabel {
  Name : string;
  Confidence : spec_float
}.

Module cv2.

Definition FONT_HERSHEY_SIMPLEX : Z := 0.
Definition FILLED : Z := -1.

Definition rectangle (img : Frame) (pt1 pt2 : point) (color : colour)
           (thickness : Z) : Frame :=
  mkFrame (pixels img) (overlay img ++ [Rectangle pt1 pt2 color thickness]).

Definition putText (img : Frame) (text : string) (org : point)
           (fontFace : Z) (fontScale : spec_float) (color : colour)
           (thickness : Z) : Frame :=
  mkFrame (pixels img)
          (overlay img ++ [PutText text org fontFace fontScale color thickness]).

End cv2.

(** The float literal [0.6]. *)
Definition float_0_6 : spec_float := S754_finite false 5404319552844595 (-53).

(** ** The text of a label, as the specification words it

    [{name} ({confidence:.1f}%)]: the confidence is written as a decimal
    numeral with one digit after the point, the nearest such number to
    the value of the float, a tie going to the even last digit.  These
    definitions read a text back as a number; they do not mention how
    the program builds its text. *)

Module Numeral.

(** The value of a decimal digit character: its code minus 48. *)
Definition digit_value (c : ascii) : option Z :=
  let code := Z.of_N (N_of_ascii c) in
  if (48 <=? code) && (code <=? 57) then Some (code - 48) else None.

(** Reading a string of digits from the left, most significant first. *)
Fixpoint read_decimal (s : string) (acc : Z) : option Z :=
  match s with
  | EmptyString => Some acc
  | String c s' =>
      match digit_value c with
      | Some d => read_decimal s' (10 * acc + d)
      | None => None
      end
  end.

Definition decimal_value (s : string) : option Z :=
  match s with
  | EmptyString => None
  | _ => read_decimal s 0
  end.

(** No leading zero, except in the numeral of zero. *)
Definition canonical (s : string) : Prop :=
  s = "0" \/ exists c s', s = String c s' /\ c <> "0"%char.

(** [s] is the decimal numeral of the natural number [v]. *)
Definition numeral (s : string) (v : Z) : Prop :=
  decimal_value s = Some v /\ canonical s.

Definition pow10 (s : string) : Z := 10 ^ Z.of_nat (String.length s).

(** [n] is the integer nearest to [num / den], a tie going to the even
    one. *)
Definition nearest_even (num den n : Z) : Prop :=
  2 * Z.abs (num - n * den) <= den /\
  (2 * Z.abs (num - n * den) = den -> Z.even n = true).

(** [n] is the number of tenths nearest to the magnitude [m * 2^e]. *)
Definition nearest_tenths (m : positive) (e : Z) (n : Z) : Prop :=
  nearest_even (10 * Zpos m * 2 ^ Z.max e 0) (2 ^ Z.max (- e) 0) n.

(** [s] writes [n] tenths: the numeral of the whole part, a point, one
    digit. *)
Definition one_decimal (s : string) (n : Z) : Prop :=
  exists ip c,
    s = (ip ++ "." ++ String c "")%string /\
    numeral ip (n / 10) /\
    digit_value c = Some (n mod 10).

(** [s] is the float [x] written with one digit after the point. *)
Definition writes_confidence (x : spec_float) (s : string) : Prop :=
  match x with
  | S754_nan => s = "nan"
  | S754_infinity sg => s = if sg then "-inf" else "inf"
  | S754_zero sg => s = if sg then "-0.0" else "0.0"
  | S754_finite sg m e =>
      exists n body,
        nearest_tenths m e n /\
        one_decimal body n /\
        s = if sg then String "-" body else body
  end.

(** [t] is the text of the detection [d]. *)
Definition writes_label (d : Label) (t : string) : Prop :=
  exists s,
    writes_confidence (Confidence d) s /\
    t = (Name d ++ " (" ++ s ++ "%)")%string.

End Numeral.
Export Numeral.

(** ** Events *)

Inductive log_level : Type := DEBUG | INFO | WARNING | ERROR.

(** The request of [detect_labels]: [Image={'Bytes': ...}], [MaxLabels],
    [MinConfidence]. *)
Record request : Type := mkRequest {
  Image_Bytes : list Z;
  MaxLabels : Z;
  MinConfidence : Z
}.

(** The response dictionary, as far as the program reads it: the entry
    under ['Labels'], when there is one. *)
Record response : Type := mkResponse {
  Labels : option (list Label)
}.

(** [response.get('Labels', [])] *)
Definition get_Labels (r : response) : list Label :=
  match Labels r with
  | Some ls => ls
  | None => []
  end.

Inductive event : Type :=
| EvLog (level : log_level) (msg : string)
| EvClient (region : string)            (* boto3.client('rekognition', ...) *)
| EvVideoCapture (index : Z)            (* cv2.VideoCapture(index) *)
| EvIsOpened                            (* cap.isOpened() *)
| EvRead                                (* cap.read() *)
| EvImencode (ext : string) (img : Frame)
| EvDetectLabels (req : request)
| EvImshow (winname : string) (img : Frame)
| EvWaitKey (delay : Z)
| EvRelease                             (* cap.release() *)
| EvDestroyAllWindows.

Definition trace : Type := list event.

(** ** Control flow: a trace, the local variables, and a result or a signal *)

Module Ctl.

(** How a block of statements can end other than by falling through. *)
Inductive signal : Type :=
| SigContinue
| SigBreak
| SigRaise (e : exn).

Definition M (St A : Type) : Type := St -> trace * St * (A + signal).

Definition ret {St A} (a : A) : M St A := fun st => ([], st, inl a).

Definition bind {St A B} (m : M St A) (k : A -> M St B) : M St B :=
  fun st =>
    match m st with
    | (t, st1, inl a) =>
        let '(t', st2, r) := k a st1 in (t ++ t', st2, r)
    | (t, st1, inr s) => (t, st1, inr s)
    end.

Definition emit {St} (ev : event) : M St unit := fun st => ([ev], st, inl tt).

Definition stop {St A} (s : signal) : M St A := fun st => ([], st, inr s).

(** A call into a library: the event is recorded and the world's answer
    is returned or raised. *)
Definition call {St A} (ev : event) (r : result A) : M St A :=
  fun st =>
    ([ev], st, match r with Ret a => inl a | Exc e => inr (SigRaise e) end).

Definition get {St} : M St St := fun st => ([], st, inl st).
Definition put {St} (st' : St) : M St unit := fun _ => ([], st', inl tt).

(** [try: body except Exception as e: handler e] *)
Definition try_except {St A} (body : M St A) (handler : exn -> M St A) : M St A :=
  fun st =>
    match body st with
    | (t, st1, inr (SigRaise e)) =>
        if is_Exception e
        then let '(t', st2, r) := handler e st1 in (t ++ t', st2, r)
        else (t, st1, inr (SigRaise e))
    | other => other
    end.

Definition logging {St} (level : log_level) (msg : string) : M St unit :=
  emit (EvLog level msg).

End Ctl.
Export Ctl.

Declare Scope ctl_scope.
Delimit Scope ctl_scope with ctl.
Notation "x <- m ;; k" := (bind m (fun x => k))
  (at level 61, m at next level, right associativity) : ctl_scope.
Notation "' pat <- m ;; k" := (bind m (fun x => match x with pat => k end))
  (at level 61, pat pattern, m at next level, right associativity) : ctl_scope.
Notation "m ;; k" := (bind m (fun _ => k))
  (at level 61, right associativity) : ctl_scope.
Local Open Scope ctl_scope.

(** ** The world the session runs in *)

(** The answers of the camera, the encoder, the service, the display and
    the keyboard during one pass through the loop.  Each is called at most
    once per pass.  When [cap.read()] answers with a false flag the frame
    that comes with it is not looked at. *)
Record iteration : Type := mkIteration {
  cap_read : result (bool * Frame);
  imencode : Frame -> result (bool * list Z);
  detect_labels : request -> result response;
  imshow : Frame -> result unit;
  waitKey : result Z
}.

(** The whole run: the environment variables (after [load_dotenv()]),
    what [boto3.client] and [cap.isOpened()] answer, and the passes of the
    loop that the world has answered so far.  [cap.release()],
    [cv2.destroyAllWindows()] and the logging calls always return. *)
Record world : Type := mkWorld {
  getenv : string -> option string;
  boto3_client : result unit;
  isOpened : bool;
  iterations : list iteration
}.

(** The local variable of [process_frames] that outlives one pass of the
    loop: [labels], unbound until its first assignment. *)
Record locals : Type := mkLocals { labels : option (list Label) }.

(** How far the loop has got: the world has no more answers yet, the
    loop was left by [break], or an exception left it. *)
Inductive status : Type :=
| Running
| Exited
| Raised (e : exn).

(** How [main] ends: it returns, an exception leaves it, or the loop is
    still running. *)
Inductive outcome : Type :=
| Finished
| Propagated (e : exn)
| StillRunning.

(** Truth value of an environment variable: unset and empty are false. *)
Definition truthy (v : option string) : bool :=
  match v with
  | Some s => negb (s =? "")%string
  | None => false
  end.

Definition getenv_str (W : world) (name : string) : string :=
  match getenv W name with
  | Some s => s
  | None => "None"
  end.

(** [buf.tobytes()]: the encoded buffer is already a sequence of bytes. *)
Definition tobytes (buf : list Z) : list Z := buf.

(** [ord('q')] *)
Definition ord_q : Z := 113.

(** ** Reading traces and overlays *)

Definition is_read (ev : event) : bool :=
  match ev with EvRead => true | _ => false end.
Definition is_detect (ev : event) : bool :=
  match ev with EvDetectLabels _ => true | _ => false end.
Definition is_imshow (ev : event) : bool :=
  match ev with EvImshow _ _ => true | _ => false end.
Definition is_waitKey (ev : event) : bool :=
  match ev with EvWaitKey _ => true | _ => false end.
Definition is_release (ev : event) : bool :=
  match ev with EvRelease => true | _ => false end.
Definition is_destroy (ev : event) : bool :=
  match ev with EvDestroyAllWindows => true | _ => false end.
Definition is_overlaid_log (ev : event) : bool :=
  match ev with
  | EvLog DEBUG msg => (msg =? "Labels overlaid on frame.")%string
  | _ => false
  end.
Definition is_error_log (ev : event) : bool :=
  match ev with EvLog ERROR _ => true | _ => false end.

(** The events a pass of the loop can produce. *)
Definition is_loop_event (ev : event) : bool :=
  match ev with
  | EvLog _ _ | EvRead | EvImencode _ _ | EvDetectLabels _
  | EvImshow _ _ | EvWaitKey _ => true
  | _ => false
  end.

Definition count (p : event -> bool) (t : trace) : nat :=
  List.length (filter p t).

(** The rectangles of an overlay, as (top-left, bottom-right). *)
Fixpoint boxes (ops : list draw_op) : list (point * point) :=
  match ops with
  | [] => []
  | Rectangle pt1 pt2 _ _ :: ops' => (pt1, pt2) :: boxes ops'
  | PutText _ _ _ _ _ _ :: ops' => boxes ops'
  end.

(** The texts of an overlay with the point each was written at. *)
Fixpoint texts (ops : list draw_op) : list (string * point) :=
  match ops with
  | [] => []
  | Rectangle _ _ _ _ :: ops' => texts ops'
  | PutText text org _ _ _ _ :: ops' => (text, org) :: texts ops'
  end.

Definition box_top (b : point * point) : Z := snd (fst b).
Definition box_bottom (b : point * point) : Z := snd (snd b).

(** ** More readers of traces *)

Definition is_imencode (ev : event) : bool :=
  match ev with EvImencode _ _ => true | _ => false end.
Definition is_client (ev : event) : bool :=
  match ev with EvClient _ => true | _ => false end.
Definition is_videocapture (ev : event) : bool :=
  match ev with EvVideoCapture _ => true | _ => false end.

(** The calls of a trace: its events other than log lines, in order. *)
Definition is_log (ev : event) : bool :=
  match ev with EvLog _ _ => true | _ => false end.
Definition calls (t : trace) : trace :=
  filter (fun ev => negb (is_log ev)) t.

(** How a pass ends, read as how far the loop has got after it. *)
Definition signal_status (r : unit + signal) : status :=
  match r with
  | inl _ | inr SigContinue => Running
  | inr SigBreak => Exited
  | inr (SigRaise e) => Raised e
  end.

(** The first end in a sequence of pass ends, and the number of passes
    begun up to and including it. *)
Fixpoint first_end (l : list status) : status :=
  match l with
  | [] => Running
  | Running :: l' => first_end l'
  | s :: _ => s
  end.

Fixpoint begun (l : list status) : nat :=
  match l with
  | [] => 0
  | Running :: l' => S (begun l')
  | _ :: _ => 1
  end.

(** What the [except] clauses of [main] log for an exception that left
    the [try] block. *)
Definition main_except_log (e : exn) : trace :=
  if is_RuntimeError e then
    [EvLog ERROR ("Runtime Error: " ++ message e)%string]
  else if is_Exception e then
    [EvLog ERROR ("An unexpected error occurred: " ++ message e)%string]
  else [].

(** ** Sample worlds *)

Module Sample.

(** A text measure with the metrics of the simplex font at scale 0.6:
    height 14, baseline 6, and 11 pixels per character. *)
Definition getTextSize (text : string) (fontFace : Z) (fontScale : spec_float)
           (thickness : Z) : (Z * Z) * Z :=
  ((11 * Z.of_nat (String.length text), 14), 6).

Definition repr_response (r : response) : string := "{...}".

Definition frame0 : Frame := mkFrame [[(1, 2, 3); (4, 5, 6)]] [].

(** The floats [91.2] and [78.5]. *)
Definition f91_2 : spec_float := S754_finite false 6417629469002957 (-46).
Definition f78_5 : spec_float := S754_finite false 157 (-1).

(** The float [99.95], and a detection that carries it. *)
Definition f99_95 : spec_float := S754_finite false 7033355980557517 (-46).
Definition Sky : Label := mkLabel "Sky" f99_95.

Definition Cat : Label := mkLabel "Cat" f91_2.
Definition Table : Label := mkLabel "Table" f78_5.

Definition jpeg : list Z := [255; 216; 255; 224].

Definition throttled : exn := mkExn OtherException "ThrottlingException".
Definition interrupted : exn := mkExn OtherBaseException "KeyboardInterrupt".
Definition no_display : exn := mkExn OtherException "cv2.error".

(** A pass that shows two labels; no key is pressed ([waitKey] gives -1). *)
Definition pass_ok : iteration :=
  mkIteration (Ret (true, frame0)) (fun _ => Ret (true, jpeg))
              (fun _ => Ret (mkResponse (Some [Cat; Table])))
              (fun _ => Ret tt) (Ret (-1)).

(** The same pass with [q] pressed. *)
Definition pass_quit : iteration :=
  mkIteration (Ret (true, frame0)) (fun _ => Ret (true, jpeg))
              (fun _ => Ret (mkResponse (Some [Cat; Table])))
              (fun _ => Ret tt) (Ret 113).

(** The encoder reports failure. *)
Definition pass_encode_fails : iteration :=
  mkIteration (Ret (true, frame0)) (fun _ => Ret (false, []))
              (fun _ => Ret (mkResponse (Some [Cat])))
              (fun _ => Ret tt) (Ret 113).

(** The service throttles the request. *)
Definition pass_throttled : iteration :=
  mkIteration (Ret (true, frame0)) (fun _ => Ret (true, jpeg))
              (fun _ => Exc throttled)
              (fun _ => Ret tt) (Ret 113).

(** The user interrupts the program during the inference call. *)
Definition pass_interrupted : iteration :=
  mkIteration (Ret (true, frame0)) (fun _ => Ret (true, jpeg))
              (fun _ => Exc interrupted)
              (fun _ => Ret tt) (Ret (-1)).

(** The response has no entry under ['Labels']. *)
Definition pass_no_labels : iteration :=
  mkIteration (Ret (true, frame0)) (fun _ => Ret (true, jpeg))
              (fun _ => Ret (mkResponse None))
              (fun _ => Ret tt) (Ret (-1)).

(** The camera delivers no frame. *)
Definition pass_end_of_stream : iteration :=
  mkIteration (Ret (false, frame0)) (fun _ => Ret (true, jpeg))
              (fun _ => Ret (mkResponse (Some [Cat])))
              (fun _ => Ret tt) (Ret (-1)).

(** The display raises. *)
Definition pass_show_raises : iteration :=
  mkIteration (Ret (true, frame0)) (fun _ => Ret (true, jpeg))
              (fun _ => Ret (mkResponse (Some [Cat])))
              (fun _ => Exc no_display) (Ret (-1)).

Definition environ (name : string) : option string :=
  if (name =? "AWS_REGION")%string then Some "us-east-1"
  else if (name =? "AWS_ACCESS_KEY_ID")%string then Some "AKIDEXAMPLE"
  else if (name =? "AWS_SECRET_ACCESS_KEY")%string then Some "secret"
  else None.

Definition session (opened : bool) (ws : list iteration) : world :=
  mkWorld environ (Ret tt) opened ws.

End Sample.

(** ** More sample worlds *)

Module MoreSamples.
Import Sample.

(** The secret key is not set. *)
Definition environ_no_secret (name : string) : option string :=
  if (name =? "AWS_REGION")%string then Some "us-east-1"
  else if (name =? "AWS_ACCESS_KEY_ID")%string then Some "AKIDEXAMPLE"
  else None.

Definition session_no_secret : world :=
  mkWorld environ_no_secret (Ret tt) true [pass_ok].

(** Creating the client raises. *)
Definition bad_endpoint : exn := mkExn OtherException "Invalid endpoint".

Definition session_client_fails : world :=
  mkWorld environ (Exc bad_endpoint) true [pass_ok].

(** A key code equal to [q] in its low byte, with higher bits set. *)
Definition pass_quit_high : iteration :=
  mkIteration (Ret (true, frame0)) (fun _ => Ret (true, jpeg))
              (fun _ => Ret (mkResponse (Some [Cat])))
              (fun _ => Ret tt) (Ret (113 + 256 * 4096)).

Definition Dog : Label := mkLabel "Dog" f78_5.

End MoreSamples.

Section Session.

(** [cv2.getTextSize(text, font, scale, thickness)] gives
    [((w, h), baseline)]; it belongs to the imaging library. *)
Variable getTextSize : string -> Z -> spec_float -> Z -> (Z * Z) * Z.

(** [str(response)], the text of the response dictionary in a log line. *)
Variable repr_response : response -> string.

(** *** draw_labels *)

Definition dy : Z := 20.
Definition font : Z := cv2.FONT_HERSHEY_SIMPLEX.
Definition font_scale : spec_float := float_0_6.
Definition font_thickness : Z := 1.
Definition text_color : colour := (0, 255, 0).
Definition bg_color : colour := (0, 0, 0).
Definition margin : Z := 5.

(** [f"{label['Name']} ({label['Confidence']:.1f}%)"] *)
Definition label_text (label : Label) : string :=
  (Name label ++ " (" ++ format_1f (Confidence label) ++ "%)")%string.

(** The body of [for label in labels], from the anchor [y0] on. *)
Fixpoint draw_labels_from (y0 : Z) (labels : list Label) (frame : Frame)
  : Frame :=
  match labels with
  | [] => frame
  | label :: rest =>
      let text := label_text label in
      let '((w, h), baseline) :=
        getTextSize text font font_scale font_thickness in
      let frame :=
        cv2.rectangle frame (margin, y0 - h - margin)
                      (margin + w + margin, y0 + baseline + margin)
                      bg_color cv2.FILLED in
      let frame :=
        cv2.putText frame text (margin + margin, y0 + baseline / 2)
                    font font_scale text_color font_thickness in
      draw_labels_from (y0 + (h + baseline + dy)) rest frame
  end.

Definition draw_labels {St} (frame : Frame) (labels : list Label)
  : M St Frame :=
  let y0 := 30 in
  let frame := draw_labels_from y0 labels frame in
  logging DEBUG "Labels overlaid on frame." ;;
  ret frame.

(** *** process_frames *)

(** Reading the local [labels]; an unbound local raises. *)
Definition read_labels : M locals (list Label) :=
  st <- get ;;
  match labels st with
  | Some ls => ret ls
  | None =>
      stop (SigRaise (mkExn OtherException
        "cannot access local variable 'labels' where it is not associated with a value"))
  end.

(** One pass through the body of [while True]. *)
Definition loop_body (w : iteration) : M locals unit :=
  logging DEBUG "Reading frame from camera..." ;;
  '(ret_, frame) <- call EvRead (cap_read w) ;;
  if negb ret_ then
    logging WARNING "Failed to retrieve frame from camera. Exiting loop." ;;
    stop SigBreak
  else
  logging DEBUG "Encoding frame to JPEG..." ;;
  '(success, img_buffer) <-
     call (EvImencode ".jpg" frame) (imencode w frame) ;;
  if negb success then
    logging WARNING "Failed to encode frame." ;;
    stop SigContinue
  else
  logging DEBUG "Frame encoded successfully." ;;
  try_except
    (logging INFO "Calling Rekognition detect_labels API..." ;;
     let req := mkRequest (tobytes img_buffer) 10 75 in
     response <- call (EvDetectLabels req) (detect_labels w req) ;;
     put (mkLocals (Some (get_Labels response))) ;;
     labels <- read_labels ;;
     logging INFO ("Rekognition detected "
                   ++ str_int (Z.of_nat (List.length labels)) ++ " labels.")%string ;;
     logging DEBUG ("Rekognition response: " ++ repr_response response)%string)
    (fun e =>
       logging ERROR ("Error calling Rekognition API: " ++ message e)%string ;;
       stop SigContinue) ;;
  labels <- read_labels ;;
  frame <- draw_labels frame labels ;;
  call (EvImshow "Live Labels" frame) (imshow w frame) ;;
  logging DEBUG "Frame displayed." ;;
  key <- call (EvWaitKey 1) (waitKey w) ;;
  let key := Z.land key 255 in
  if key =? ord_q then
    logging INFO "'q' key pressed. Exiting loop." ;;
    stop SigBreak
  else ret tt.

(** [while True: body], run against the passes the world has answered.
    The result lists the trace of each pass that was begun. *)
Fixpoint while_True (body : iteration -> M locals unit)
         (ws : list iteration) (st : locals) : list trace * locals * status :=
  match ws with
  | [] => ([], st, Running)
  | w :: ws' =>
      match body w st with
      | (t, st1, inl _) | (t, st1, inr SigContinue) =>
          let '(ts, st2, s) := while_True body ws' st1 in (t :: ts, st2, s)
      | (t, st1, inr SigBreak) => ([t], st1, Exited)
      | (t, st1, inr (SigRaise e)) => ([t], st1, Raised e)
      end
  end.

Definition process_frames (ws : list iteration) : list trace * status :=
  let '(ts, _, s) := while_True loop_body ws (mkLocals None) in (ts, s).

(** *** Start-up *)

(** [sys.exit(1)] *)
Definition sys_exit {St A} (code : Z) : M St A :=
  stop (SigRaise (mkExn SystemExit (str_int code))).

Definition initialize_rekognition (W : world) : M unit unit :=
  let aws_access_key_id := getenv W "AWS_ACCESS_KEY_ID" in
  let aws_secret_access_key := getenv W "AWS_SECRET_ACCESS_KEY" in
  if negb (truthy aws_access_key_id) || negb (truthy aws_secret_access_key)
  then
    logging ERROR
      "AWS credentials (AWS_ACCESS_KEY_ID, AWS_SECRET_ACCESS_KEY) not found." ;;
    sys_exit 1
  else
  try_except
    (rek_client <- call (EvClient (getenv_str W "AWS_REGION")) (boto3_client W) ;;
     logging INFO ("Successfully initialized Rekognition client in region '"
                   ++ getenv_str W "AWS_REGION" ++ "'.")%string ;;
     ret rek_client)
    (fun e =>
       logging ERROR ("Error initializing Rekognition client: " ++ message e)%string ;;
       sys_exit 1).

Definition open_camera (W : world) (index : Z) : M unit unit :=
  logging INFO ("Attempting to open camera at index " ++ str_int index ++ "...")%string ;;
  emit (EvVideoCapture index) ;;
  emit EvIsOpened ;;
  if negb (isOpened W) then
    logging ERROR ("Cannot open camera at index " ++ str_int index ++ ".")%string ;;
    stop (SigRaise (mkExn RuntimeError
                          ("Cannot open camera at index " ++ str_int index)%string))
  else
  logging INFO ("Camera at index " ++ str_int index ++ " opened successfully.")%string ;;
  ret tt.

(** *** main *)

(** The [finally] block; [cap] tells whether [main]'s variable [cap]
    holds a camera. *)
Definition cleanup (cap : bool) : trace :=
  [EvLog INFO "Starting cleanup..."]
  ++ (if cap then [EvLog INFO "Releasing camera resource..."; EvRelease]
      else [])
  ++ [EvLog INFO "Destroying OpenCV windows..."; EvDestroyAllWindows;
      EvLog INFO "Application finished."].

(** The [try] block of [main]: its trace, whether [cap] was assigned,
    and how far it got.  The two start-up functions contain no loop, so
    the only signal they can end with is a raised exception. *)
Definition main_try (W : world) : trace * bool * status :=
  match initialize_rekognition W tt with
  | (t1, _, inr (SigRaise e)) => (t1, false, Raised e)
  | (t1, _, inr _) => (t1, false, Exited)
  | (t1, _, inl rek_client) =>
      match open_camera W 0 tt with
      | (t2, _, inr (SigRaise e)) => (t1 ++ t2, false, Raised e)
      | (t2, _, inr _) => (t1 ++ t2, false, Exited)
      | (t2, _, inl cap) =>
          let '(ts, s) := process_frames (iterations W) in
          (t1 ++ t2 ++ List.concat ts, true, s)
      end
  end.

Definition main (W : world) : trace * outcome :=
  let '(t, cap, s) := main_try W in
  match s with
  | Running => (t, StillRunning)
  | Exited => (t ++ cleanup cap, Finished)
  | Raised e =>
      if is_RuntimeError e then
        (t ++ [EvLog ERROR ("Runtime Error: " ++ message e)%string]
           ++ cleanup cap, Finished)
      else if is_Exception e then
        (t ++ [EvLog ERROR ("An unexpected error occurred: " ++ message e)%string]
           ++ cleanup cap, Finished)
      else (t ++ cleanup cap, Propagated e)
  end.

(** The script as the interpreter runs it: the module-level check of
    [AWS_REGION], then [main()]. *)
Definition script (W : world) : trace * outcome :=
  if negb (truthy (getenv W "AWS_REGION")) then
    ([EvLog ERROR
        "AWS region (AWS_REGION) not found in environment variables or .env file."],
     Propagated (mkExn SystemExit "1"))
  else main W.

(** *** The layout of the label boxes, as the specification words it *)

(** How far one label moves the anchor down: text height, baseline and
    the spacing of 20. *)
Definition step (label : Label) : Z :=
  let '((w, h), baseline) :=
    getTextSize (label_text label) font font_scale font_thickness in
  h + baseline + 20.

(** The anchors of the boxes: the first at [y0], each next one a step
    further down. *)
Fixpoint anchors (y0 : Z) (D : list Label) : list Z :=
  match D with
  | [] => []
  | label :: rest => y0 :: anchors (y0 + step label) rest
  end.

(** One label box at anchor [y]: the filled background, then the text. *)
Definition box_at (y : Z) (label : Label) : list draw_op :=
  let text := label_text label in
  let '((w, h), baseline) :=
    getTextSize text font font_scale font_thickness in
  [Rectangle (5, y - h - 5) (5 + w + 5, y + baseline + 5) (0, 0, 0) (-1);
   PutText text (10, y + baseline / 2) 0 float_0_6 (0, 255, 0) 1].

Fixpoint boxes_at (ys : list Z) (D : list Label) : list draw_op :=
  match ys, D with
  | y :: ys', label :: rest => box_at y label ++ boxes_at ys' rest
  | _, _ => []
  end.

(** The height the text measure reports for a text. *)
Definition text_height (text : string) : Z :=
  snd (fst (getTextSize text font font_scale font_thickness)).

(** *** The traces of the passes of the loop *)

(** The request the loop sends for an encoded buffer. *)
Definition the_request (img_buffer : list Z) : request :=
  mkRequest (tobytes img_buffer) 10 75.

(** Up to the answer of [cap.read()]. *)
Definition t_read : trace :=
  [EvLog DEBUG "Reading frame from camera..."; EvRead].

(** Up to the answer of [cv2.imencode]. *)
Definition t_encode (frame : Frame) : trace :=
  t_read ++ [EvLog DEBUG "Encoding frame to JPEG..."; EvImencode ".jpg" frame].

(** Up to the answer of [detect_labels]. *)
Definition t_infer (frame : Frame) (img_buffer : list Z) : trace :=
  t_encode frame
  ++ [EvLog DEBUG "Frame encoded successfully.";
      EvLog INFO "Calling Rekognition detect_labels API...";
      EvDetectLabels (the_request img_buffer)].

(** Up to the answer of [cv2.imshow], for the response [r]. *)
Definition t_show (frame : Frame) (img_buffer : list Z) (r : response) : trace :=
  t_infer frame img_buffer
  ++ [EvLog INFO ("Rekognition detected "
                  ++ str_int (Z.of_nat (List.length (get_Labels r)))
                  ++ " labels.")%string;
      EvLog DEBUG ("Rekognition response: " ++ repr_response r)%string;
      EvLog DEBUG "Labels overlaid on frame.";
      EvImshow "Live Labels" (draw_labels_from 30 (get_Labels r) frame)].

(** Up to the answer of [cv2.waitKey]. *)
Definition t_poll (frame : Frame) (img_buffer : list Z) (r : response) : trace :=
  t_show frame img_buffer r ++ [EvLog DEBUG "Frame displayed."; EvWaitKey 1].

(** What follows the answer of [cv2.imshow] in a pass that got that far. *)
Definition after_show (w : iteration) (frame : Frame) (buf : list Z)
           (r : response) : trace * (unit + signal) :=
  match imshow w (draw_labels_from 30 (get_Labels r) frame) with
  | Exc e => (t_show frame buf r, inr (SigRaise e))
  | Ret _ =>
      match waitKey w with
      | Exc e => (t_poll frame buf r, inr (SigRaise e))
      | Ret key =>
          if Z.land key 255 =? ord_q
          then (t_poll frame buf r
                ++ [EvLog INFO "'q' key pressed. Exiting loop."], inr SigBreak)
          else (t_poll frame buf r, inl tt)
      end
  end.

(** A pass gets as far as polling the keyboard when the frame was read
    and encoded, the inference call returned and the display call
    returned. *)
Definition reaches_poll (w : iteration) : Prop :=
  exists frame buf r,
    cap_read w = Ret (true, frame) /\
    imencode w frame = Ret (true, buf) /\
    detect_labels w (the_request buf) = Ret r /\
    imshow w (draw_labels_from 30 (get_Labels r) frame) = Ret tt.

(** The shapes a pass can take, by the answers of the world. *)
Inductive pass_shape (w : iteration) (st : locals)
  : trace -> locals -> unit + signal -> Prop :=
| ShapeEndOfStream frame :
    cap_read w = Ret (false, frame) ->
    pass_shape w st
      (t_read ++ [EvLog WARNING "Failed to retrieve frame from camera. Exiting loop."])
      st (inr SigBreak)
| ShapeReadRaises e :
    cap_read w = Exc e ->
    pass_shape w st t_read st (inr (SigRaise e))
| ShapeEncodeFails frame buf :
    cap_read w = Ret (true, frame) ->
    imencode w frame = Ret (false, buf) ->
    pass_shape w st (t_encode frame ++ [EvLog WARNING "Failed to encode frame."])
               st (inr SigContinue)
| ShapeEncodeRaises frame e :
    cap_read w = Ret (true, frame) ->
    imencode w frame = Exc e ->
    pass_shape w st (t_encode frame) st (inr (SigRaise e))
| ShapeInferenceError frame buf e :
    cap_read w = Ret (true, frame) ->
    imencode w frame = Ret (true, buf) ->
    detect_labels w (the_request buf) = Exc e ->
    is_Exception e = true ->
    pass_shape w st
      (t_infer frame buf
       ++ [EvLog ERROR ("Error calling Rekognition API: " ++ message e)%string])
      st (inr SigContinue)
| ShapeInferenceEscapes frame buf e :
    cap_read w = Ret (true, frame) ->
    imencode w frame = Ret (true, buf) ->
    detect_labels w (the_request buf) = Exc e ->
    is_Exception e = false ->
    pass_shape w st (t_infer frame buf) st (inr (SigRaise e))
| ShapeShown frame buf r :
    cap_read w = Ret (true, frame) ->
    imencode w frame = Ret (true, buf) ->
    detect_labels w (the_request buf) = Ret r ->
    pass_shape w st (fst (after_show w frame buf r))
               (mkLocals (Some (get_Labels r)))
               (snd (after_show w frame buf r)).

(** The traces of the passes, and how far the loop got. *)
Definition passes (ws : list iteration) : list trace := fst (process_frames ws).
Definition loop_status (ws : list iteration) : status := snd (process_frames ws).

(** The exit check as the specification words it: once in every pass. *)
Definition exit_checked_once_in_every_pass : Prop :=
  forall ws i t, nth_error (passes ws) i = Some t -> count is_waitKey t = 1%nat.

(** The start-up of a session whose credentials are set, whose client is
    created and whose camera opens. *)
Definition started (W : world) : Prop :=
  truthy (getenv W "AWS_ACCESS_KEY_ID") = true /\
  truthy (getenv W "AWS_SECRET_ACCESS_KEY") = true /\
  boto3_client W = Ret tt /\
  isOpened W = true.

Definition t_client (W : world) : trace :=
  [EvClient (getenv_str W "AWS_REGION");
   EvLog INFO ("Successfully initialized Rekognition client in region '"
               ++ getenv_str W "AWS_REGION" ++ "'.")%string].

Definition t_open : trace :=
  [EvLog INFO "Attempting to open camera at index 0...";
   EvVideoCapture 0; EvIsOpened].

Definition t_startup (W : world) : trace :=
  t_client W ++ t_open ++ [EvLog INFO "Camera at index 0 opened successfully."].

(** The imaging library never reports a negative text height or
    baseline. *)
Hypothesis getTextSize_nonneg :
  forall text,
    0 <= snd (fst (getTextSize text font font_scale font_thickness)) /\
    0 <= snd (getTextSize text font font_scale font_thickness).

(** *** A pass on its own *)

(** How a pass ends, read off the answers of the world alone. *)
Definition pass_end (w : iteration) : status :=
  match cap_read w with
  | Exc e => Raised e
  | Ret (false, _) => Exited
  | Ret (true, frame) =>
      match imencode w frame with
      | Exc e => Raised e
      | Ret (false, _) => Running
      | Ret (true, buf) =>
          match detect_labels w (the_request buf) with
          | Exc e => if is_Exception e then Running else Raised e
          | Ret r =>
              match imshow w (draw_labels_from 30 (get_Labels r) frame) with
              | Exc e => Raised e
              | Ret _ =>
                  match waitKey w with
                  | Exc e => Raised e
                  | Ret key =>
                      if Z.land key 255 =? ord_q then Exited else Running
                  end
              end
          end
      end
  end.

(** The trace of a pass run as the first pass of a session. *)
Definition pass_trace (w : iteration) : trace :=
  fst (fst (loop_body w (mkLocals None))).

(** The inference call of a pass fails with an exception that the loop
    catches. *)
Definition inference_fails (w : iteration) : Prop :=
  exists frame buf e,
    cap_read w = Ret (true, frame) /\
    imencode w frame = Ret (true, buf) /\
    detect_labels w (the_request buf) = Exc e /\
    is_Exception e = true.

(** The anchor after the labels [D] have been drawn from [y0]. *)
Definition advance (y0 : Z) (D : list Label) : Z :=
  fold_left (fun y label => y + step label) D y0.

(** ** Properties of draw_labels *)

Lemma draw_labels_from_layout (D : list Label) :
  forall (y0 : Z) (frame : Frame),
    pixels (draw_labels_from y0 D frame) = pixels frame /\
    overlay (draw_labels_from y0 D frame)
    = overlay frame ++ boxes_at (anchors y0 D) D.
Proof.
  induction D as [|label rest IH]; intros y0 frame.
  - simpl. now rewrite app_nil_r.
  - cbn [draw_labels_from anchors boxes_at].
    unfold box_at, step.
    destruct (getTextSize (label_text label) font font_scale font_thickness)
      as [[w h] baseline].
    destruct (IH (y0 + (h + baseline + dy))
                 (cv2.putText
                    (cv2.rectangle frame (margin, y0 - h - margin)
                       (margin + w + margin, y0 + baseline + margin)
                       bg_color cv2.FILLED)
                    (label_text label) (margin + margin, y0 + baseline / 2)
                    font font_scale text_color font_thickness))
      as [Hpix Hov].
    split.
    + rewrite Hpix. reflexivity.
    + rewrite Hov. cbn [cv2.putText cv2.rectangle overlay].
      rewrite <- !app_assoc. reflexivity.
Qed.

Lemma anchors_length (D : list Label) :
  forall y0, List.length (anchors y0 D) = List.length D.
Proof. induction D; intros; simpl; auto. Qed.

Lemma boxes_app (a b : list draw_op) : boxes (a ++ b) = boxes a ++ boxes b.
Proof.
  induction a as [|[] a IH]; simpl; auto. now rewrite IH.
Qed.

Lemma texts_app (a b : list draw_op) : texts (a ++ b) = texts a ++ texts b.
Proof.
  induction a as [|[] a IH]; simpl; auto. now rewrite IH.
Qed.

Lemma boxes_at_count (D : list Label) :
  forall y0, List.length (boxes (boxes_at (anchors y0 D) D)) = List.length D.
Proof.
  induction D as [|label rest IH]; intros y0; simpl; auto.
  rewrite boxes_app, length_app, IH. unfold box_at.
  destruct (getTextSize _ _ _ _) as [[w h] b]. reflexivity.
Qed.

Lemma boxes_at_texts (D : list Label) :
  forall y0, map fst (texts (boxes_at (anchors y0 D) D)) = map label_text D.
Proof.
  induction D as [|label rest IH]; intros y0; simpl; auto.
  rewrite texts_app, map_app, IH. unfold box_at.
  destruct (getTextSize _ _ _ _) as [[w h] b]. reflexivity.
Qed.

Lemma step_positive (label : Label) : 20 <= step label.
Proof.
  unfold step.
  pose proof (getTextSize_nonneg (label_text label)) as H.
  destruct (getTextSize _ _ _ _) as [[w h] b]. simpl in H. lia.
Qed.

Lemma anchors_lower_bound (D : list Label) :
  forall y0, Forall (fun y => y0 <= y) (anchors y0 D).
Proof.
  induction D as [|label rest IH]; intros y0; simpl; constructor.
  - lia.
  - pose proof (step_positive label).
    eapply Forall_impl; [|apply IH]. simpl. intros; lia.
Qed.

Lemma anchors_increasing (D : list Label) :
  forall y0, StronglySorted Z.lt (anchors y0 D).
Proof.
  induction D as [|label rest IH]; intros y0; simpl; constructor.
  - apply IH.
  - pose proof (step_positive label).
    eapply Forall_impl; [|apply anchors_lower_bound]. simpl. intros; lia.
Qed.

Lemma bottoms_lower_bound (D : list Label) :
  forall y0,
    Forall (fun z => y0 + 5 <= z)
           (map box_bottom (boxes (boxes_at (anchors y0 D) D))).
Proof.
  induction D as [|label rest IH]; intros y0; simpl; [constructor|].
  rewrite boxes_app, map_app. apply Forall_app. split.
  - unfold box_at.
    pose proof (getTextSize_nonneg (label_text label)) as H.
    destruct (getTextSize _ _ _ _) as [[w h] b]. simpl in *.
    constructor; [unfold box_bottom; simpl; lia | constructor].
  - pose proof (step_positive label).
    eapply Forall_impl; [|apply IH]. simpl. intros; lia.
Qed.

Lemma bottoms_increasing (D : list Label) :
  forall y0,
    StronglySorted Z.lt (map box_bottom (boxes (boxes_at (anchors y0 D) D))).
Proof.
  induction D as [|label rest IH]; intros y0; simpl; [constructor|].
  rewrite boxes_app, map_app.
  pose proof (bottoms_lower_bound rest (y0 + step label)) as Hlow.
  specialize (IH (y0 + step label)).
  unfold box_at, step in *.
  pose proof (getTextSize_nonneg (label_text label)) as H.
  destruct (getTextSize _ _ _ _) as [[w h] b]. simpl in *.
  constructor; [exact IH|].
  eapply Forall_impl; [|exact Hlow]. unfold box_bottom. simpl. intros; lia.
Qed.

Lemma anchors_step (D : list Label) :
  forall y0 i y label,
    nth_error (anchors y0 D) i = Some y ->
    nth_error D i = Some label ->
    (i + 1 < List.length D)%nat ->
    nth_error (anchors y0 D) (i + 1) = Some (y + step label).
Proof.
  induction D as [|l0 rest IH]; intros y0 i y label Hy Hl Hlen.
  - destruct i; discriminate.
  - destruct i as [|i]; simpl in *.
    + injection Hy as <-. injection Hl as <-.
      destruct rest as [|l1 rest]; simpl in *; [lia | reflexivity].
    + apply (IH (y0 + step l0) i y label Hy Hl). lia.
Qed.

Lemma tops_of_anchors (D : list Label) (h0 : Z) :
  (forall text, text_height text = h0) ->
  forall y0,
    map box_top (boxes (boxes_at (anchors y0 D) D))
    = map (fun y => y - h0 - 5) (anchors y0 D).
Proof.
  intros Huni. induction D as [|label rest IH]; intros y0; simpl; auto.
  rewrite boxes_app, map_app, IH.
  specialize (Huni (label_text label)).
  unfold box_at, text_height in *.
  destruct (getTextSize _ _ _ _) as [[w h] b]. simpl in *. subst h0.
  reflexivity.
Qed.

Lemma sorted_map_increasing (f : Z -> Z) (ys : list Z) :
  (forall a b, a < b -> f a < f b) ->
  StronglySorted Z.lt ys -> StronglySorted Z.lt (map f ys).
Proof.
  intros Hf. induction 1 as [|y ys Hs IH Hall]; simpl; constructor; auto.
  rewrite Forall_map. eapply Forall_impl; [|exact Hall].
  simpl. intros; auto.
Qed.

(** C2: for every frame and every sequence of detections D, draw_labels
    draws exactly len(D) label boxes, one per detection and in the order
    of D (each a filled rectangle followed by its text); the anchor of
    the first is 30, each next anchor is the previous one plus text
    height, baseline and 20, and the vertical positions are strictly
    increasing: the anchors, the lower edges of the rectangles drawn and,
    for a font whose text height does not depend on the text, their
    upper edges too. *)
Theorem draw_labels_boxes {St : Type} (frame : Frame) (D : list Label)
        (st : St) :
  exists frame',
    draw_labels frame D st
    = ([EvLog DEBUG "Labels overlaid on frame."], st, inl frame') /\
    pixels frame' = pixels frame /\
    overlay frame' = overlay frame ++ boxes_at (anchors 30 D) D /\
    List.length (boxes (boxes_at (anchors 30 D) D)) = List.length D /\
    map fst (texts (boxes_at (anchors 30 D) D)) = map label_text D /\
    List.length (anchors 30 D) = List.length D /\
    (forall y, hd_error (anchors 30 D) = Some y -> y = 30) /\
    (forall i y label,
        nth_error (anchors 30 D) i = Some y ->
        nth_error D i = Some label ->
        (i + 1 < List.length D)%nat ->
        nth_error (anchors 30 D) (i + 1) = Some (y + step label) /\
        y < y + step label) /\
    StronglySorted Z.lt (anchors 30 D) /\
    StronglySorted Z.lt
      (map box_bottom (boxes (boxes_at (anchors 30 D) D))) /\
    (forall h0, (forall text, text_height text = h0) ->
       StronglySorted Z.lt
         (map box_top (boxes (boxes_at (anchors 30 D) D)))).
Proof.
  exists (draw_labels_from 30 D frame).
  destruct (draw_labels_from_layout D 30 frame) as [Hpix Hov].
  repeat split.
  - exact Hpix.
  - exact Hov.
  - apply boxes_at_count.
  - apply boxes_at_texts.
  - apply anchors_length.
  - destruct D; simpl; intros y Hy; congruence.
  - eapply anchors_step; eassumption.
  - pose proof (step_positive label). lia.
  - apply anchors_increasing.
  - apply bottoms_increasing.
  - intros h0 Huni. rewrite (tops_of_anchors D h0 Huni).
    apply sorted_map_increasing; [intros; lia | apply anchors_increasing].
Qed.

(** ** One pass through the loop *)

Ltac run_body :=
  unfold loop_body, read_labels, draw_labels, bind, call, logging, emit,
    stop, try_except, get, put, ret;
  cbn [fst snd negb labels app].

Lemma body_end_of_stream (w : iteration) (st : locals) (frame : Frame) :
  cap_read w = Ret (false, frame) ->
  loop_body w st
  = (t_read ++ [EvLog WARNING "Failed to retrieve frame from camera. Exiting loop."],
     st, inr SigBreak).
Proof. intros H. run_body. rewrite H. reflexivity. Qed.

Lemma body_read_raises (w : iteration) (st : locals) (e : exn) :
  cap_read w = Exc e ->
  loop_body w st = (t_read, st, inr (SigRaise e)).
Proof. intros H. run_body. rewrite H. reflexivity. Qed.

Lemma body_encode_fails (w : iteration) (st : locals) (frame : Frame)
      (buf : list Z) :
  cap_read w = Ret (true, frame) ->
  imencode w frame = Ret (false, buf) ->
  loop_body w st
  = (t_encode frame ++ [EvLog WARNING "Failed to encode frame."],
     st, inr SigContinue).
Proof. intros H1 H2. run_body. rewrite H1. cbn. rewrite H2. reflexivity. Qed.

Lemma body_encode_raises (w : iteration) (st : locals) (frame : Frame)
      (e : exn) :
  cap_read w = Ret (true, frame) ->
  imencode w frame = Exc e ->
  loop_body w st = (t_encode frame, st, inr (SigRaise e)).
Proof. intros H1 H2. run_body. rewrite H1. cbn. rewrite H2. reflexivity. Qed.

Lemma body_inference_error (w : iteration) (st : locals) (frame : Frame)
      (buf : list Z) (e : exn) :
  cap_read w = Ret (true, frame) ->
  imencode w frame = Ret (true, buf) ->
  detect_labels w (the_request buf) = Exc e ->
  is_Exception e = true ->
  loop_body w st
  = (t_infer frame buf
     ++ [EvLog ERROR ("Error calling Rekognition API: " ++ message e)%string],
     st, inr SigContinue).
Proof.
  intros H1 H2 H3 H4. unfold the_request in H3. run_body.
  rewrite H1. cbn. rewrite H2. cbn. rewrite H3. cbn. rewrite H4. reflexivity.
Qed.

Lemma body_inference_escapes (w : iteration) (st : locals) (frame : Frame)
      (buf : list Z) (e : exn) :
  cap_read w = Ret (true, frame) ->
  imencode w frame = Ret (true, buf) ->
  detect_labels w (the_request buf) = Exc e ->
  is_Exception e = false ->
  loop_body w st = (t_infer frame buf, st, inr (SigRaise e)).
Proof.
  intros H1 H2 H3 H4. unfold the_request in H3. run_body.
  rewrite H1. cbn. rewrite H2. cbn. rewrite H3. cbn. rewrite H4. reflexivity.
Qed.

Lemma body_shown (w : iteration) (st : locals) (frame : Frame)
      (buf : list Z) (r : response) :
  cap_read w = Ret (true, frame) ->
  imencode w frame = Ret (true, buf) ->
  detect_labels w (the_request buf) = Ret r ->
  loop_body w st
  = (fst (after_show w frame buf r), mkLocals (Some (get_Labels r)),
     snd (after_show w frame buf r)).
Proof.
  intros H1 H2 H3. unfold the_request in H3. unfold after_show. run_body.
  rewrite H1. cbn. rewrite H2. cbn. rewrite H3. cbn.
  destruct (imshow w _) as [[]|e]; cbn; [|reflexivity].
  destruct (waitKey w) as [key|e]; cbn; [|reflexivity].
  destruct (Z.land key 255 =? ord_q); reflexivity.
Qed.

(** Every pass begins by asking the camera for a frame. *)
Lemma body_starts (w : iteration) (st : locals) :
  exists t', fst (fst (loop_body w st)) = t_read ++ t'.
Proof.
  destruct (cap_read w) as [[[] frame]|e] eqn:H1.
  - destruct (imencode w frame) as [[[] buf]|e] eqn:H2.
    + destruct (detect_labels w (the_request buf)) as [r|e] eqn:H3.
      * rewrite (body_shown w st frame buf r H1 H2 H3). unfold after_show.
        destruct (imshow w _) as [[]|e]; [destruct (waitKey w) as [key|e];
          [destruct (Z.land key 255 =? ord_q)|]|];
          cbn [fst snd]; unfold t_poll, t_show, t_infer, t_encode;
          rewrite <- ?app_assoc; eexists; reflexivity.
      * destruct (is_Exception e) eqn:H4.
        -- rewrite (body_inference_error w st frame buf e H1 H2 H3 H4).
           unfold t_infer, t_encode. rewrite <- !app_assoc.
           eexists; reflexivity.
        -- rewrite (body_inference_escapes w st frame buf e H1 H2 H3 H4).
           unfold t_infer, t_encode. rewrite <- !app_assoc.
           eexists; reflexivity.
    + rewrite (body_encode_fails w st frame buf H1 H2).
      unfold t_encode. rewrite <- !app_assoc. eexists; reflexivity.
    + rewrite (body_encode_raises w st frame e H1 H2).
      unfold t_encode. eexists; reflexivity.
  - rewrite (body_end_of_stream w st frame H1). eexists; reflexivity.
  - rewrite (body_read_raises w st e H1). exists []. now rewrite app_nil_r.
Qed.

Lemma body_shape (w : iteration) (st : locals) :
  pass_shape w st (fst (fst (loop_body w st))) (snd (fst (loop_body w st)))
             (snd (loop_body w st)).
Proof.
  destruct (cap_read w) as [[[] frame]|e] eqn:H1.
  - destruct (imencode w frame) as [[[] buf]|e] eqn:H2.
    + destruct (detect_labels w (the_request buf)) as [r|e] eqn:H3.
      * rewrite (body_shown w st frame buf r H1 H2 H3).
        now apply ShapeShown.
      * destruct (is_Exception e) eqn:H4.
        -- rewrite (body_inference_error w st frame buf e H1 H2 H3 H4).
           now apply ShapeInferenceError.
        -- rewrite (body_inference_escapes w st frame buf e H1 H2 H3 H4).
           now apply ShapeInferenceEscapes.
    + rewrite (body_encode_fails w st frame buf H1 H2).
      now apply ShapeEncodeFails with (buf := buf).
    + rewrite (body_encode_raises w st frame e H1 H2).
      now apply ShapeEncodeRaises.
  - rewrite (body_end_of_stream w st frame H1). now apply ShapeEndOfStream with (frame := frame).
  - rewrite (body_read_raises w st e H1). now apply ShapeReadRaises.
Qed.

(** ** The loop *)

Lemma while_True_app (body : iteration -> M locals unit)
      (pre post : list iteration) :
  forall st,
    while_True body (pre ++ post) st
    = match while_True body pre st with
      | (ts, st1, Running) =>
          let '(ts', st2, s) := while_True body post st1 in (ts ++ ts', st2, s)
      | other => other
      end.
Proof.
  induction pre as [|w pre IH]; intros st; simpl.
  - destruct (while_True body post st) as [[ts' st2] s]. reflexivity.
  - destruct (body w st) as [[t st1] [u|[| |e]]]; try reflexivity;
      rewrite IH;
      destruct (while_True body pre st1) as [[ts st2] []]; try reflexivity;
      destruct (while_True body post st2) as [[ts' st3] s]; reflexivity.
Qed.

Lemma while_True_running (body : iteration -> M locals unit)
      (ws : list iteration) :
  forall st ts st1,
    while_True body ws st = (ts, st1, Running) ->
    List.length ts = List.length ws.
Proof.
  induction ws as [|w ws IH]; intros st ts st1 H; simpl in H.
  - injection H as <- _. reflexivity.
  - destruct (body w st) as [[t st0] [u|[| |e]]]; try discriminate;
      destruct (while_True body ws st0) as [[ts' st2] s] eqn:E;
      injection H as <- _ ->; simpl; f_equal; eapply IH; eassumption.
Qed.

(** Each trace in the result is the trace of the body on the pass of the
    same rank. *)
Lemma while_True_pass (body : iteration -> M locals unit)
      (ws : list iteration) :
  forall st i t,
    nth_error (fst (fst (while_True body ws st))) i = Some t ->
    exists w st_i, nth_error ws i = Some w /\ fst (fst (body w st_i)) = t.
Proof.
  induction ws as [|w ws IH]; intros st i t H; simpl in H.
  - destruct i; discriminate.
  - destruct (body w st) as [[t0 st0] r] eqn:E.
    assert (Hhd : fst (fst (body w st)) = t0) by now rewrite E.
    destruct i as [|i].
    + exists w, st. split; [reflexivity|].
      destruct r as [u|[| |e]];
        try (destruct (while_True body ws st0) as [[ts' st2] s]);
        simpl in H; congruence.
    + destruct r as [u|[| |e]];
        try (destruct (while_True body ws st0) as [[ts' st2] s] eqn:E2;
             simpl in H;
             destruct (IH st0 i t) as (w' & st_i & Hw & Ht);
             [now rewrite E2 | exists w', st_i; now split]);
        simpl in H; destruct i; discriminate.
Qed.

(** When the loop is still running after the passes [pre], the passes
    that follow are run from the locals it has reached. *)
Lemma process_frames_resume (pre : list iteration) :
  loop_status pre = Running ->
  exists st1,
    List.length (passes pre) = List.length pre /\
    forall post,
      passes (pre ++ post)
      = passes pre ++ fst (fst (while_True loop_body post st1)) /\
      loop_status (pre ++ post) = snd (while_True loop_body post st1).
Proof.
  unfold loop_status, passes, process_frames. intros H.
  destruct (while_True loop_body pre (mkLocals None)) as [[ts st1] s] eqn:E.
  simpl in H. subst s. exists st1. split.
  - simpl. eapply while_True_running; eassumption.
  - intros post. rewrite while_True_app, E.
    destruct (while_True loop_body post st1) as [[ts' st2] s']. now split.
Qed.

Lemma nth_error_middle {A} (l : list A) (a : A) (l' : list A) (n : nat) :
  n = List.length l -> nth_error (l ++ a :: l') n = Some a.
Proof.
  intros ->. rewrite nth_error_app2 by lia.
  now rewrite Nat.sub_diag.
Qed.

Lemma while_True_cons (body : iteration -> M locals unit) (w : iteration)
      (ws : list iteration) (st : locals) :
  while_True body (w :: ws) st
  = match body w st with
    | (t, st1, inl _) | (t, st1, inr SigContinue) =>
        let '(ts, st2, s) := while_True body ws st1 in (t :: ts, st2, s)
    | (t, st1, inr SigBreak) => ([t], st1, Exited)
    | (t, st1, inr (SigRaise e)) => ([t], st1, Raised e)
    end.
Proof. reflexivity. Qed.

Lemma while_True_head (w : iteration) (ws : list iteration) (st : locals) :
  exists rest,
    fst (fst (while_True loop_body (w :: ws) st))
    = fst (fst (loop_body w st)) :: rest.
Proof.
  rewrite while_True_cons.
  destruct (loop_body w st) as [[t st1] [u|[| |e]]];
    try (destruct (while_True loop_body ws st1) as [[ts st2] s]);
    eexists; reflexivity.
Qed.

(** A pass that ends in [continue] and leaves the locals alone only adds
    its own trace: the loop then goes on as it would have without it. *)
Lemma skipped_pass (pre : list iteration) (w : iteration)
      (post : list iteration) (t : trace) :
  loop_status pre = Running ->
  (forall st, loop_body w st = (t, st, inr SigContinue)) ->
  nth_error (passes (pre ++ w :: post)) (List.length pre) = Some t /\
  loop_status (pre ++ [w]) = Running /\
  loop_status (pre ++ w :: post) = loop_status (pre ++ post) /\
  (forall w', exists t',
      nth_error (passes (pre ++ w :: w' :: post)) (List.length pre + 1)
      = Some (t_read ++ t')).
Proof.
  intros Hrun Hbody.
  destruct (process_frames_resume pre Hrun) as (st1 & Hlen & Hres).
  repeat split.
  - destruct (Hres (w :: post)) as [Hp _]. rewrite Hp.
    rewrite while_True_cons, Hbody.
    destruct (while_True loop_body post st1) as [[ts st2] s]. cbn [fst].
    now apply nth_error_middle.
  - destruct (Hres [w]) as [_ Hs]. rewrite Hs.
    rewrite while_True_cons, Hbody. reflexivity.
  - destruct (Hres (w :: post)) as [_ Hs]. rewrite Hs.
    destruct (Hres post) as [_ Hs']. rewrite Hs'.
    rewrite while_True_cons, Hbody.
    destruct (while_True loop_body post st1) as [[ts st2] s]. reflexivity.
  - intros w'. destruct (Hres (w :: w' :: post)) as [Hp _]. rewrite Hp.
    rewrite while_True_cons, Hbody.
    destruct (while_True_head w' post st1) as [rest Hhd].
    destruct (body_starts w' st1) as [t' Ht'].
    destruct (while_True loop_body (w' :: post) st1) as [[ts st2] s].
    cbn [fst] in *. subst ts. exists t'. rewrite <- Ht'.
    rewrite nth_error_app2 by lia.
    replace (List.length pre + 1 - List.length (passes pre))%nat with 1%nat by lia.
    reflexivity.
Qed.

(** ** The claims about a pass that fails *)

(** C1: in every pass in which detect_labels raises an exception (one
    that [except Exception] catches: network, authentication, throttling
    or a malformed response), the loop does not end: the error is logged
    as the last event of the pass, the session is still running after
    it, the rest of the session goes on as it would have without the
    pass, and the next pass begins by requesting the next frame. *)
Theorem inference_failure_keeps_running
        (pre : list iteration) (w : iteration) (post : list iteration)
        (frame : Frame) (buf : list Z) (e : exn) :
  loop_status pre = Running ->
  cap_read w = Ret (true, frame) ->
  imencode w frame = Ret (true, buf) ->
  detect_labels w (the_request buf) = Exc e ->
  is_Exception e = true ->
  nth_error (passes (pre ++ w :: post)) (List.length pre)
  = Some (t_infer frame buf
          ++ [EvLog ERROR ("Error calling Rekognition API: " ++ message e)%string]) /\
  loop_status (pre ++ [w]) = Running /\
  loop_status (pre ++ w :: post) = loop_status (pre ++ post) /\
  (forall w', exists t',
      nth_error (passes (pre ++ w :: w' :: post)) (List.length pre + 1)
      = Some (t_read ++ t')).
Proof.
  intros Hrun H1 H2 H3 H4. apply skipped_pass; [exact Hrun|].
  intros st. now apply body_inference_error.
Qed.

(** C3: in every pass in which imencode reports failure, no inference
    call is made: the pass consists of the read, the encoding and the
    warning, it contains no detect_labels call, and the loop goes on to
    the next frame. *)
Theorem encode_failure_skips_inference
        (pre : list iteration) (w : iteration) (post : list iteration)
        (frame : Frame) (buf : list Z) :
  loop_status pre = Running ->
  cap_read w = Ret (true, frame) ->
  imencode w frame = Ret (false, buf) ->
  exists t,
    t = t_encode frame ++ [EvLog WARNING "Failed to encode frame."] /\
    nth_error (passes (pre ++ w :: post)) (List.length pre) = Some t /\
    count is_detect t = 0%nat /\
    loop_status (pre ++ [w]) = Running /\
    loop_status (pre ++ w :: post) = loop_status (pre ++ post) /\
    (forall w', exists t',
        nth_error (passes (pre ++ w :: w' :: post)) (List.length pre + 1)
        = Some (t_read ++ t')).
Proof.
  intros Hrun H1 H2. eexists. split; [reflexivity|].
  destruct (skipped_pass pre w post
              (t_encode frame ++ [EvLog WARNING "Failed to encode frame."])
              Hrun) as (Hn & Hs & Hp & Hnext).
  - intros st. now apply body_encode_fails with (buf := buf).
  - repeat split; auto.
Qed.

(** A pass that ends in [break] or in an exception is the last one. *)
Lemma last_pass (pre : list iteration) (w : iteration)
      (post : list iteration) (t : trace) (sig : signal) :
  loop_status pre = Running ->
  sig <> SigContinue ->
  (forall st, exists st', loop_body w st = (t, st', inr sig)) ->
  passes (pre ++ w :: post) = passes pre ++ [t] /\
  nth_error (passes (pre ++ w :: post)) (List.length pre) = Some t /\
  List.length (passes (pre ++ w :: post)) = (List.length pre + 1)%nat /\
  loop_status (pre ++ w :: post)
  = match sig with SigRaise e => Raised e | _ => Exited end.
Proof.
  intros Hrun Hsig Hbody.
  destruct (process_frames_resume pre Hrun) as (st1 & Hlen & Hres).
  destruct (Hres (w :: post)) as [Hp Hs].
  destruct (Hbody st1) as [st' Hb].
  rewrite while_True_cons, Hb in Hp, Hs.
  destruct sig as [| |e]; [congruence| |]; cbn [fst snd] in Hp, Hs;
    rewrite Hp, Hs; (repeat split;
      [now apply nth_error_middle | rewrite length_app, Hlen; reflexivity]).
Qed.

Ltac explicit_trace :=
  unfold t_poll, t_show, t_infer, t_encode, t_read in *;
  cbn [app fst snd] in *.

Ltac split_shown w :=
  unfold after_show in *;
  destruct (imshow w _) as [[]|?e];
  [destruct (waitKey w) as [?key|?e];
   [destruct (Z.land _ 255 =? ord_q)|]|].

(** A frame is shown only in a pass whose inference call returned, and
    it is drawn with the labels of that very response. *)
Lemma imshow_in_shape (w : iteration) (st : locals) (t : trace)
      (st' : locals) (r : unit + signal) (win : string) (f : Frame) :
  pass_shape w st t st' r ->
  In (EvImshow win f) t ->
  exists frame buf resp,
    cap_read w = Ret (true, frame) /\
    imencode w frame = Ret (true, buf) /\
    detect_labels w (the_request buf) = Ret resp /\
    win = "Live Labels" /\
    f = draw_labels_from 30 (get_Labels resp) frame.
Proof.
  intros Hs Hin.
  destruct Hs as [frame ?|e ?|frame buf ? ?|frame e ? ?|frame buf e ? ? ? ?
                  |frame buf e ? ? ? ?|frame buf resp H1 H2 H3];
    try (explicit_trace; cbn [In] in Hin;
         repeat (destruct Hin as [Hin|Hin]; [discriminate|]); contradiction).
  exists frame, buf, resp. repeat split; auto;
    split_shown w; explicit_trace; cbn [In] in Hin;
    repeat (destruct Hin as [Hin|Hin];
            [first [discriminate | injection Hin; intros; subst; reflexivity]|]);
    contradiction.
Qed.

(** An inference request is sent only in a pass that read and encoded a
    frame; it is the request for that buffer and the only one of the
    pass. *)
Lemma detect_in_shape (w : iteration) (st : locals) (t : trace)
      (st' : locals) (r : unit + signal) (req : request) :
  pass_shape w st t st' r ->
  In (EvDetectLabels req) t ->
  exists frame buf,
    cap_read w = Ret (true, frame) /\
    imencode w frame = Ret (true, buf) /\
    req = the_request buf /\
    count is_detect t = 1%nat.
Proof.
  intros Hs Hin.
  destruct Hs as [frame ?|e ?|frame buf ? ?|frame e ? ?|frame buf e ? ? ? ?
                  |frame buf e ? ? ? ?|frame buf resp H1 H2 H3];
    try (explicit_trace; cbn [In] in Hin;
         repeat (destruct Hin as [Hin|Hin]; [discriminate|]); contradiction).
  - exists frame, buf. repeat split; auto.
    explicit_trace; cbn [In] in Hin;
    repeat (destruct Hin as [Hin|Hin];
            [first [discriminate | injection Hin; intros; subst; reflexivity]|]);
    contradiction.
  - exists frame, buf. repeat split; auto.
    explicit_trace; cbn [In] in Hin;
    repeat (destruct Hin as [Hin|Hin];
            [first [discriminate | injection Hin; intros; subst; reflexivity]|]);
    contradiction.
  - exists frame, buf. repeat split; auto;
    split_shown w; explicit_trace; cbn [In] in Hin;
    first [ reflexivity |
    repeat (destruct Hin as [Hin|Hin];
            [first [discriminate | injection Hin; intros; subst; reflexivity]|]);
    contradiction ].
Qed.

(** The pass of rank [i] has one of the shapes, for the world's answers
    of rank [i]. *)
Lemma pass_has_shape (ws : list iteration) (i : nat) (t : trace) :
  nth_error (passes ws) i = Some t ->
  exists w st st' r, nth_error ws i = Some w /\ pass_shape w st t st' r.
Proof.
  unfold passes, process_frames. intros H.
  destruct (while_True loop_body ws (mkLocals None)) as [[ts st2] s] eqn:E.
  cbn [fst] in H.
  destruct (while_True_pass loop_body ws (mkLocals None) i t) as (w & st & Hw & Ht).
  - now rewrite E.
  - exists w, st. subst t. do 2 eexists. split; [exact Hw|]. apply body_shape.
Qed.

(** C4: in every pass in which the inference call fails, the frame is
    neither rendered nor displayed: draw_labels is not run on it (its log
    line is absent), imshow is not called, and the local [labels] is left
    as it was, whatever an earlier pass had stored there.  What is more,
    every frame shown anywhere in the session is shown in another pass,
    one whose own inference call returned, and carries the labels of that
    very response: labels of an earlier pass are never drawn. *)
Theorem inference_failure_skips_display
        (pre : list iteration) (w : iteration) (post : list iteration)
        (frame : Frame) (buf : list Z) (e : exn) :
  loop_status pre = Running ->
  cap_read w = Ret (true, frame) ->
  imencode w frame = Ret (true, buf) ->
  detect_labels w (the_request buf) = Exc e ->
  exists t,
    nth_error (passes (pre ++ w :: post)) (List.length pre) = Some t /\
    count is_imshow t = 0%nat /\
    count is_overlaid_log t = 0%nat /\
    (forall st, exists sig, loop_body w st = (t, st, inr sig)) /\
    (forall i t_i win f,
        nth_error (passes (pre ++ w :: post)) i = Some t_i ->
        In (EvImshow win f) t_i ->
        i <> List.length pre /\
        exists w_i frame_i buf_i r_i,
          nth_error (pre ++ w :: post) i = Some w_i /\
          cap_read w_i = Ret (true, frame_i) /\
          imencode w_i frame_i = Ret (true, buf_i) /\
          detect_labels w_i (the_request buf_i) = Ret r_i /\
          f = draw_labels_from 30 (get_Labels r_i) frame_i).
Proof.
  intros Hrun H1 H2 H3.
  assert (Hshown : forall i t_i win f,
             nth_error (passes (pre ++ w :: post)) i = Some t_i ->
             In (EvImshow win f) t_i ->
             exists w_i frame_i buf_i r_i,
               nth_error (pre ++ w :: post) i = Some w_i /\
               cap_read w_i = Ret (true, frame_i) /\
               imencode w_i frame_i = Ret (true, buf_i) /\
               detect_labels w_i (the_request buf_i) = Ret r_i /\
               f = draw_labels_from 30 (get_Labels r_i) frame_i).
  { intros i t_i win f Hn Hin.
    destruct (pass_has_shape _ _ _ Hn) as (w_i & st & st' & r & Hw & Hs).
    destruct (imshow_in_shape _ _ _ _ _ _ _ Hs Hin)
      as (frame_i & buf_i & r_i & ? & ? & ? & ? & ?).
    exists w_i, frame_i, buf_i, r_i. repeat split; assumption. }
  assert (Hfresh : forall i t_i win f,
             nth_error (passes (pre ++ w :: post)) i = Some t_i ->
             In (EvImshow win f) t_i -> i <> List.length pre).
  { intros i t_i win f Hn Hin ->.
    destruct (Hshown _ _ _ _ Hn Hin)
      as (w_i & frame_i & buf_i & r_i & Hw & G1 & G2 & G3 & _).
    rewrite nth_error_middle in Hw by reflexivity. injection Hw as <-.
    congruence. }
  destruct (is_Exception e) eqn:H4.
  - exists (t_infer frame buf
            ++ [EvLog ERROR ("Error calling Rekognition API: " ++ message e)%string]).
    destruct (skipped_pass pre w post _ Hrun
                (fun st => body_inference_error w st frame buf e H1 H2 H3 H4))
      as (Hn & _).
    repeat split; auto.
    + intros st. exists SigContinue. now apply body_inference_error.
    + eapply Hfresh; eassumption.
    + eapply Hshown; eassumption.
  - exists (t_infer frame buf).
    destruct (last_pass pre w post (t_infer frame buf) (SigRaise e) Hrun)
      as (_ & Hn & _).
    + discriminate.
    + intros st. exists st. now apply body_inference_escapes.
    + repeat split; auto.
      * intros st. exists (SigRaise e). now apply body_inference_escapes.
      * eapply Hfresh; eassumption.
      * eapply Hshown; eassumption.
Qed.

(** C8: every inference request the loop sends carries MaxLabels = 10 and
    MinConfidence = 75 together with the bytes of the buffer that imencode
    returned for the frame read in the same pass, and it is the only
    request of its pass; and every pass that reaches the inference step
    (its frame was read and encoded) sends exactly that request. *)
Theorem requests_carry_frame_bytes (ws : list iteration) :
  (forall i t req,
      nth_error (passes ws) i = Some t ->
      In (EvDetectLabels req) t ->
      MaxLabels req = 10 /\ MinConfidence req = 75 /\
      count is_detect t = 1%nat /\
      exists w frame buf,
        nth_error ws i = Some w /\
        cap_read w = Ret (true, frame) /\
        imencode w frame = Ret (true, buf) /\
        Image_Bytes req = tobytes buf) /\
  (forall pre w post frame buf,
      ws = pre ++ w :: post ->
      loop_status pre = Running ->
      cap_read w = Ret (true, frame) ->
      imencode w frame = Ret (true, buf) ->
      exists t,
        nth_error (passes ws) (List.length pre) = Some t /\
        In (EvDetectLabels (mkRequest (tobytes buf) 10 75)) t /\
        count is_detect t = 1%nat).
Proof.
  split.
  - intros i t req Hn Hin.
    destruct (pass_has_shape _ _ _ Hn) as (w & st & st' & r & Hw & Hs).
    destruct (detect_in_shape _ _ _ _ _ _ Hs Hin)
      as (frame & buf & H1 & H2 & -> & Hc).
    repeat split; auto. exists w, frame, buf. repeat split; auto.
  - intros pre w post frame buf -> Hrun H1 H2.
    destruct (process_frames_resume pre Hrun) as (st1 & Hlen & Hres).
    destruct (Hres (w :: post)) as [Hp _].
    destruct (while_True_head w post st1) as [rest Hhd].
    rewrite Hhd in Hp.
    exists (fst (fst (loop_body w st1))).
    assert (Hin : In (EvDetectLabels (mkRequest (tobytes buf) 10 75))
                     (fst (fst (loop_body w st1)))).
    { destruct (detect_labels w (the_request buf)) as [r|e] eqn:H3.
      - rewrite (body_shown w st1 frame buf r H1 H2 H3).
        split_shown w; explicit_trace; cbn [In]; auto 8.
      - destruct (is_Exception e) eqn:H4.
        + rewrite (body_inference_error w st1 frame buf e H1 H2 H3 H4).
          explicit_trace; cbn [In]; auto 8.
        + rewrite (body_inference_escapes w st1 frame buf e H1 H2 H3 H4).
          explicit_trace; cbn [In]; auto 8. }
    repeat split.
    + rewrite Hp. now apply nth_error_middle.
    + exact Hin.
    + destruct (detect_in_shape _ _ _ _ _ _ (body_shape w st1) Hin)
        as (_ & _ & _ & _ & _ & Hc). exact Hc.
Qed.

(** C10: in every pass in which the inference call returns a response
    without a 'Labels' entry, the detection list is the empty list and
    the frame is still rendered and displayed, exactly as it was read
    (zero overlays): the pass logs 0 labels, runs draw_labels, calls
    imshow on the unchanged frame, logs no error, polls the keyboard when
    imshow returns, and, when no exit key is pressed, the loop goes on. *)
Theorem missing_labels_show_plain_frame
        (pre : list iteration) (w : iteration) (post : list iteration)
        (frame : Frame) (buf : list Z) (r : response) :
  loop_status pre = Running ->
  cap_read w = Ret (true, frame) ->
  imencode w frame = Ret (true, buf) ->
  detect_labels w (the_request buf) = Ret r ->
  Labels r = None ->
  get_Labels r = [] /\
  exists t rest,
    nth_error (passes (pre ++ w :: post)) (List.length pre) = Some t /\
    t = t_infer frame buf
        ++ [EvLog INFO "Rekognition detected 0 labels.";
            EvLog DEBUG ("Rekognition response: " ++ repr_response r)%string;
            EvLog DEBUG "Labels overlaid on frame.";
            EvImshow "Live Labels" frame]
        ++ rest /\
    count is_imshow t = 1%nat /\
    count is_error_log t = 0%nat /\
    (imshow w frame = Ret tt -> count is_waitKey t = 1%nat) /\
    (forall key,
        imshow w frame = Ret tt -> waitKey w = Ret key ->
        Z.land key 255 <> ord_q ->
        loop_status (pre ++ [w]) = Running).
Proof.
  intros Hrun H1 H2 H3 Hnone.
  assert (Hget : get_Labels r = []) by (unfold get_Labels; now rewrite Hnone).
  split; [exact Hget|].
  destruct (process_frames_resume pre Hrun) as (st1 & Hlen & Hres).
  destruct (Hres (w :: post)) as [Hp _].
  destruct (while_True_head w post st1) as [tail Hhd].
  rewrite Hhd, (body_shown w st1 frame buf r H1 H2 H3) in Hp. cbn [fst] in Hp.
  assert (Hstatus : forall key,
             imshow w frame = Ret tt -> waitKey w = Ret key ->
             Z.land key 255 <> ord_q ->
             loop_status (pre ++ [w]) = Running).
  { intros key Hshow Hkey Hq. destruct (Hres [w]) as [_ Hs]. rewrite Hs.
    rewrite while_True_cons, (body_shown w st1 frame buf r H1 H2 H3).
    unfold after_show. rewrite Hget. cbn [draw_labels_from].
    rewrite Hshow, Hkey. apply Z.eqb_neq in Hq. rewrite Hq. reflexivity. }
  exists (fst (after_show w frame buf r)).
  unfold after_show in *. rewrite Hget in *. cbn [draw_labels_from] in *.
  destruct (imshow w frame) as [[]|e1] eqn:Hshow.
  - destruct (waitKey w) as [key|e2] eqn:Hkey.
    + destruct (Z.land key 255 =? ord_q) eqn:Hq.
      * exists [EvLog DEBUG "Frame displayed."; EvWaitKey 1;
                EvLog INFO "'q' key pressed. Exiting loop."].
        repeat split; auto.
        -- rewrite Hp. now apply nth_error_middle.
        -- cbn [fst]. unfold t_poll, t_show. rewrite Hget.
           rewrite <- !app_assoc. reflexivity.
      * exists [EvLog DEBUG "Frame displayed."; EvWaitKey 1].
        repeat split; auto.
        -- rewrite Hp. now apply nth_error_middle.
        -- cbn [fst]. unfold t_poll, t_show. rewrite Hget.
           rewrite <- !app_assoc. reflexivity.
    + exists [EvLog DEBUG "Frame displayed."; EvWaitKey 1].
      repeat split; auto.
      * rewrite Hp. now apply nth_error_middle.
      * cbn [fst]. unfold t_poll, t_show. rewrite Hget.
        rewrite <- !app_assoc. reflexivity.
  - exists []. repeat split; auto.
    + rewrite Hp. now apply nth_error_middle.
    + cbn [fst]. unfold t_show. rewrite Hget. reflexivity.
    + discriminate.
Qed.

(** ** Counting events *)

Lemma count_app (p : event -> bool) (a b : trace) :
  count p (a ++ b) = (count p a + count p b)%nat.
Proof. unfold count. now rewrite filter_app, length_app. Qed.

Lemma count_none (p : event -> bool) (t : trace) :
  (forall ev, In ev t -> p ev = false) -> count p t = 0%nat.
Proof.
  unfold count. induction t as [|ev t IH]; intros H; simpl; auto.
  rewrite (H ev) by now left. apply IH. intros; apply H; now right.
Qed.

Lemma count_concat (p : event -> bool) (n : nat) (ts : list trace) :
  Forall (fun t => count p t = n) ts ->
  count p (List.concat ts) = (List.length ts * n)%nat.
Proof.
  induction 1 as [|t ts Ht Hall IH]; simpl; auto.
  now rewrite count_app, Ht, IH.
Qed.

Lemma shape_loop_events (w : iteration) (st : locals) (t : trace)
      (st' : locals) (r : unit + signal) :
  pass_shape w st t st' r ->
  forallb is_loop_event t = true /\ count is_read t = 1%nat.
Proof.
  intros Hs.
  destruct Hs as [frame ?|e ?|frame buf ? ?|frame e ? ?|frame buf e ? ? ? ?
                  |frame buf e ? ? ? ?|frame buf resp H1 H2 H3];
    try (split; reflexivity).
  split_shown w; split; reflexivity.
Qed.

Lemma passes_forall (P : trace -> Prop) (ws : list iteration) :
  (forall w st t st' r, pass_shape w st t st' r -> P t) ->
  Forall P (passes ws).
Proof.
  intros H. apply Forall_forall. intros t Hin.
  destruct (In_nth_error _ _ Hin) as [i Hi].
  destruct (pass_has_shape ws i t Hi) as (w & st & st' & r & _ & Hs).
  eapply H; eassumption.
Qed.

Lemma passes_read_count (ws : list iteration) :
  count is_read (List.concat (passes ws)) = List.length (passes ws).
Proof.
  rewrite (count_concat is_read 1), Nat.mul_1_r; [reflexivity|].
  apply passes_forall. intros w st t st' r Hs.
  now destruct (shape_loop_events _ _ _ _ _ Hs).
Qed.

Lemma loop_events_only (p : event -> bool) (ws : list iteration) :
  (forall ev, is_loop_event ev = true -> p ev = false) ->
  count p (List.concat (passes ws)) = 0%nat.
Proof.
  intros Hp. rewrite (count_concat p 0), Nat.mul_0_r; [reflexivity|].
  apply passes_forall. intros w st t st' r Hs.
  destruct (shape_loop_events _ _ _ _ _ Hs) as [Hall _].
  apply count_none. intros ev Hin. apply Hp.
  rewrite forallb_forall in Hall. now apply Hall.
Qed.

(** ** Start-up and shutdown *)

Lemma initialize_rekognition_ok (W : world) :
  truthy (getenv W "AWS_ACCESS_KEY_ID") = true ->
  truthy (getenv W "AWS_SECRET_ACCESS_KEY") = true ->
  boto3_client W = Ret tt ->
  initialize_rekognition W tt = (t_client W, tt, inl tt).
Proof.
  intros Hk Hs Hc. unfold initialize_rekognition.
  rewrite Hk, Hs. cbn [negb orb].
  unfold try_except, bind, call, logging, emit, ret. rewrite Hc. reflexivity.
Qed.

Lemma main_try_started (W : world) :
  started W ->
  main_try W
  = (t_startup W ++ List.concat (passes (iterations W)), true,
     loop_status (iterations W)).
Proof.
  intros (Hk & Hs & Hc & Ho). unfold main_try.
  rewrite (initialize_rekognition_ok W Hk Hs Hc).
  unfold open_camera, bind, logging, emit, ret, stop. rewrite Ho.
  cbn [negb]. unfold passes, loop_status.
  destruct (process_frames (iterations W)) as [ts s].
  unfold t_startup. cbn [fst snd app]. rewrite <- !app_assoc. reflexivity.
Qed.

Lemma main_started (W : world) :
  started W ->
  main W
  = match loop_status (iterations W) with
    | Running =>
        (t_startup W ++ List.concat (passes (iterations W)), StillRunning)
    | Exited =>
        ((t_startup W ++ List.concat (passes (iterations W))) ++ cleanup true,
         Finished)
    | Raised e =>
        if is_RuntimeError e then
          ((t_startup W ++ List.concat (passes (iterations W)))
             ++ [EvLog ERROR ("Runtime Error: " ++ message e)%string]
             ++ cleanup true, Finished)
        else if is_Exception e then
          ((t_startup W ++ List.concat (passes (iterations W)))
             ++ [EvLog ERROR ("An unexpected error occurred: " ++ message e)%string]
             ++ cleanup true, Finished)
        else
          ((t_startup W ++ List.concat (passes (iterations W))) ++ cleanup true,
           Propagated e)
    end.
Proof.
  intros H. unfold main. rewrite (main_try_started W H).
  destruct (loop_status (iterations W)); reflexivity.
Qed.

Lemma release_not_in_loop (ev : event) :
  is_loop_event ev = true -> is_release ev = false.
Proof. destruct ev; simpl; congruence. Qed.

Lemma destroy_not_in_loop (ev : event) :
  is_loop_event ev = true -> is_destroy ev = false.
Proof. destruct ev; simpl; congruence. Qed.

Lemma RuntimeError_is_Exception (e : exn) :
  is_Exception e = false -> is_RuntimeError e = false.
Proof. unfold is_Exception, is_RuntimeError. now destruct (class_of e). Qed.

(** A session that has ended before the loop was entered ran the cleanup
    stage once, without a release. *)
Lemma main_not_started (W : world) :
  ~ started W ->
  exists t,
    fst (main W) = t ++ cleanup false /\
    count is_release t = 0%nat /\ count is_destroy t = 0%nat /\
    snd (main W) <> StillRunning.
Proof.
  intros Hns. unfold main, main_try, initialize_rekognition.
  destruct (truthy (getenv W "AWS_ACCESS_KEY_ID")) eqn:Hk;
    [destruct (truthy (getenv W "AWS_SECRET_ACCESS_KEY")) eqn:Hs|];
    cbn [negb orb];
    try (cbn -[app cleanup]; rewrite ?app_assoc; eexists;
         split; [reflexivity|]; repeat split; try reflexivity; discriminate).
  unfold try_except, bind, call, logging, emit, ret, sys_exit, stop.
  destruct (boto3_client W) as [[]|e] eqn:Hc.
  - unfold open_camera, bind, logging, emit, ret, stop.
    destruct (isOpened W) eqn:Ho.
    + exfalso. apply Hns. now repeat split.
    + cbn -[app cleanup]; rewrite ?app_assoc; eexists;
        split; [reflexivity|]; repeat split; try reflexivity; discriminate.
  - destruct (is_Exception e) eqn:He.
    + cbn -[app cleanup]; rewrite ?app_assoc; eexists;
        split; [reflexivity|]; repeat split; try reflexivity; discriminate.
    + cbn [fst snd]. rewrite (RuntimeError_is_Exception e He), He.
      cbn -[app cleanup]; rewrite ?app_assoc; eexists;
        split; [reflexivity|]; repeat split; try reflexivity; discriminate.
Qed.

(** C6: on every way out of the session the cleanup stage runs exactly
    once.  The loop is left when the camera delivers no frame, when the
    exit key is read, or when an exception leaves the loop body; whenever
    the loop has been left, the trace of [main] ends with the cleanup
    stage, which releases the camera and closes the windows, and it
    contains exactly one release of the camera and exactly one closing of
    the windows.  In any world at all, once [main] has ended its trace
    contains one closing of the windows and at most one release. *)
Theorem cleanup_runs_once (W : world) :
  (started W ->
   loop_status (iterations W) <> Running ->
   exists t,
     fst (main W) = t ++ cleanup true /\
     count is_release t = 0%nat /\
     count is_destroy t = 0%nat /\
     count is_release (fst (main W)) = 1%nat /\
     count is_destroy (fst (main W)) = 1%nat /\
     snd (main W) <> StillRunning) /\
  (forall pre w post,
      iterations W = pre ++ w :: post ->
      loop_status pre = Running ->
      ((exists frame, cap_read w = Ret (false, frame)) ->
       loop_status (iterations W) = Exited) /\
      ((exists frame buf r key,
           cap_read w = Ret (true, frame) /\
           imencode w frame = Ret (true, buf) /\
           detect_labels w (the_request buf) = Ret r /\
           imshow w (draw_labels_from 30 (get_Labels r) frame) = Ret tt /\
           waitKey w = Ret key /\
           Z.land key 255 = ord_q) ->
       loop_status (iterations W) = Exited) /\
      (forall e t,
          (forall st, exists st', loop_body w st = (t, st', inr (SigRaise e))) ->
          loop_status (iterations W) = Raised e)) /\
  (snd (main W) <> StillRunning ->
   count is_destroy (fst (main W)) = 1%nat /\
   (count is_release (fst (main W)) <= 1)%nat).
Proof.
  assert (Hstarted :
    started W ->
    loop_status (iterations W) <> Running ->
    exists t,
      fst (main W) = t ++ cleanup true /\
      count is_release t = 0%nat /\
      count is_destroy t = 0%nat /\
      count is_release (fst (main W)) = 1%nat /\
      count is_destroy (fst (main W)) = 1%nat /\
      snd (main W) <> StillRunning).
  { intros Hstart Hleft.
    pose proof (loop_events_only is_release (iterations W) release_not_in_loop)
      as Hrel.
    pose proof (loop_events_only is_destroy (iterations W) destroy_not_in_loop)
      as Hdes.
    rewrite (main_started W Hstart).
    destruct (loop_status (iterations W)) as [| |e]; [congruence| |].
    + exists (t_startup W ++ List.concat (passes (iterations W))).
      cbn [fst snd]. rewrite !count_app, Hrel, Hdes.
      repeat split; try reflexivity. discriminate.
    + destruct (is_RuntimeError e); [|destruct (is_Exception e)].
      * exists ((t_startup W ++ List.concat (passes (iterations W)))
                ++ [EvLog ERROR ("Runtime Error: " ++ message e)%string]).
        cbn [fst snd]. rewrite (app_assoc _ [EvLog _ _] (cleanup true)).
        rewrite !count_app, Hrel, Hdes.
        repeat split; try reflexivity. discriminate.
      * exists ((t_startup W ++ List.concat (passes (iterations W)))
                ++ [EvLog ERROR
                      ("An unexpected error occurred: " ++ message e)%string]).
        cbn [fst snd]. rewrite (app_assoc _ [EvLog _ _] (cleanup true)).
        rewrite !count_app, Hrel, Hdes.
        repeat split; try reflexivity. discriminate.
      * exists (t_startup W ++ List.concat (passes (iterations W))).
        cbn [fst snd]. rewrite !count_app, Hrel, Hdes.
        repeat split; try reflexivity. discriminate. }
  split; [exact Hstarted|]. split.
  - intros pre w post Hws Hrun. rewrite Hws. repeat split.
    + intros [frame H1].
      destruct (last_pass pre w post
                  (t_read ++ [EvLog WARNING
                     "Failed to retrieve frame from camera. Exiting loop."])
                  SigBreak Hrun) as (_ & _ & _ & Hs);
        [discriminate | | exact Hs].
      intros st. exists st. now apply body_end_of_stream with (frame := frame).
    + intros (frame & buf & r & key & H1 & H2 & H3 & H4 & H5 & H6).
      destruct (last_pass pre w post
                  (t_poll frame buf r
                   ++ [EvLog INFO "'q' key pressed. Exiting loop."])
                  SigBreak Hrun) as (_ & _ & _ & Hs);
        [discriminate | | exact Hs].
      intros st. eexists. rewrite (body_shown w st frame buf r H1 H2 H3).
      unfold after_show. rewrite H4, H5.
      apply Z.eqb_eq in H6. rewrite H6. reflexivity.
    + intros e t Hbody.
      destruct (last_pass pre w post t (SigRaise e) Hrun) as (_ & _ & _ & Hs);
        [discriminate | exact Hbody | exact Hs].
  - intros Hended.
    destruct (truthy (getenv W "AWS_ACCESS_KEY_ID")) eqn:Hk;
      [destruct (truthy (getenv W "AWS_SECRET_ACCESS_KEY")) eqn:Hs;
       [destruct (boto3_client W) as [[]|e] eqn:Hc;
        [destruct (isOpened W) eqn:Ho|]|]|].
    + assert (Hstart : started W) by now repeat split.
      destruct (Hstarted Hstart) as (t & _ & _ & _ & Hr & Hd & _).
      * intros Hrunning. apply Hended.
        rewrite (main_started W Hstart), Hrunning. reflexivity.
      * rewrite Hr, Hd. split; [reflexivity | lia].
    + destruct (main_not_started W) as (t & Ht & Hr & Hd & _).
      { intros (_ & _ & _ & Ho'). congruence. }
      rewrite Ht, !count_app, Hr, Hd. split; [reflexivity | cbn; lia].
    + destruct (main_not_started W) as (t & Ht & Hr & Hd & _).
      { intros (_ & _ & Hc' & _). congruence. }
      rewrite Ht, !count_app, Hr, Hd. split; [reflexivity | cbn; lia].
    + destruct (main_not_started W) as (t & Ht & Hr & Hd & _).
      { intros (_ & Hs' & _). congruence. }
      rewrite Ht, !count_app, Hr, Hd. split; [reflexivity | cbn; lia].
    + destruct (main_not_started W) as (t & Ht & Hr & Hd & _).
      { intros (Hk' & _). congruence. }
      rewrite Ht, !count_app, Hr, Hd. split; [reflexivity | cbn; lia].
Qed.

(** C9: when the camera cannot be opened at start-up, the session is
    aborted before any frame is requested: the trace of [main] is the
    creation of the client, the attempt to open the camera, the two error
    lines and the cleanup stage without a release.  It contains no read
    and no release, it closes the windows once, and [main] returns
    normally. *)
Theorem camera_unopenable (W : world) :
  truthy (getenv W "AWS_ACCESS_KEY_ID") = true ->
  truthy (getenv W "AWS_SECRET_ACCESS_KEY") = true ->
  boto3_client W = Ret tt ->
  isOpened W = false ->
  main W
  = (t_client W ++ t_open
     ++ [EvLog ERROR "Cannot open camera at index 0.";
         EvLog ERROR "Runtime Error: Cannot open camera at index 0";
         EvLog INFO "Starting cleanup...";
         EvLog INFO "Destroying OpenCV windows...";
         EvDestroyAllWindows;
         EvLog INFO "Application finished."],
     Finished) /\
  count is_read (fst (main W)) = 0%nat /\
  count is_release (fst (main W)) = 0%nat /\
  count is_destroy (fst (main W)) = 1%nat.
Proof.
  intros Hk Hs Hc Ho.
  assert (Hmain : main W
    = (t_client W ++ t_open
       ++ [EvLog ERROR "Cannot open camera at index 0.";
           EvLog ERROR "Runtime Error: Cannot open camera at index 0";
           EvLog INFO "Starting cleanup...";
           EvLog INFO "Destroying OpenCV windows...";
           EvDestroyAllWindows;
           EvLog INFO "Application finished."],
       Finished)).
  { unfold main, main_try.
    rewrite (initialize_rekognition_ok W Hk Hs Hc).
    unfold open_camera, bind, logging, emit, ret, stop. rewrite Ho.
    reflexivity. }
  rewrite Hmain. repeat split; reflexivity.
Qed.

(** ** The exit key *)

Lemma poll_count_shape (w : iteration) (st : locals) (t : trace)
      (st' : locals) (r : unit + signal) :
  pass_shape w st t st' r ->
  (reaches_poll w /\ count is_waitKey t = 1%nat) \/
  (~ reaches_poll w /\ count is_waitKey t = 0%nat).
Proof.
  intros Hs.
  destruct Hs as [frame H1|e H1|frame buf H1 H2|frame e H1 H2
                  |frame buf e H1 H2 H3 H4|frame buf e H1 H2 H3 H4
                  |frame buf resp H1 H2 H3];
    try (right; split; [|reflexivity];
         intros (f & b & r0 & G1 & G2 & G3 & G4); congruence).
  unfold after_show.
  destruct (imshow w (draw_labels_from 30 (get_Labels resp) frame))
    as [[]|e1] eqn:H4.
  - left. split.
    + exists frame, buf, resp. now repeat split.
    + destruct (waitKey w) as [key|e2];
        [destruct (Z.land key 255 =? ord_q)|]; reflexivity.
  - right. split; [|reflexivity].
    intros (f & b & r0 & G1 & G2 & G3 & G4).
    assert (f = frame) by congruence. subst f.
    assert (b = buf) by congruence. subst b.
    assert (r0 = resp) by congruence. subst r0. congruence.
Qed.

(** C5, as amended: the exit key is polled exactly once in every pass
    that gets as far as displaying its frame (the frame was read and
    encoded, the inference call returned and imshow returned), and not at
    all in a pass that ends earlier; when the key read on pass N is [q]
    (in its low byte), the loop ends with pass N: no further pass is
    begun, whatever the world would have answered, the camera has been
    read N times, and [main] runs the cleanup stage and returns. *)
Theorem exit_key_checked_after_display (ws : list iteration) :
  (forall i t w,
      nth_error (passes ws) i = Some t ->
      nth_error ws i = Some w ->
      (reaches_poll w -> count is_waitKey t = 1%nat) /\
      (~ reaches_poll w -> count is_waitKey t = 0%nat)) /\
  (forall W pre w post frame buf r key,
      started W ->
      iterations W = ws ->
      ws = pre ++ w :: post ->
      loop_status pre = Running ->
      cap_read w = Ret (true, frame) ->
      imencode w frame = Ret (true, buf) ->
      detect_labels w (the_request buf) = Ret r ->
      imshow w (draw_labels_from 30 (get_Labels r) frame) = Ret tt ->
      waitKey w = Ret key ->
      Z.land key 255 = ord_q ->
      loop_status ws = Exited /\
      passes ws = passes (pre ++ [w]) /\
      List.length (passes ws) = (List.length pre + 1)%nat /\
      count is_read (fst (main W)) = (List.length pre + 1)%nat /\
      main W
      = ((t_startup W ++ List.concat (passes (pre ++ [w]))) ++ cleanup true,
         Finished)).
Proof.
  split.
  - intros i t w Hn Hw.
    destruct (pass_has_shape ws i t Hn) as (w' & st & st' & r & Hw' & Hs).
    assert (w' = w) by congruence. subst w'.
    destruct (poll_count_shape _ _ _ _ _ Hs) as [[Hr Hc]|[Hr Hc]];
      split; intros; tauto.
  - intros W pre w post frame buf r key Hstart HW -> Hrun H1 H2 H3 H4 H5 H6.
    assert (Hbody : forall st, exists st',
               loop_body w st
               = (t_poll frame buf r
                  ++ [EvLog INFO "'q' key pressed. Exiting loop."],
                  st', inr SigBreak)).
    { intros st. eexists. rewrite (body_shown w st frame buf r H1 H2 H3).
      unfold after_show. rewrite H4, H5.
      apply Z.eqb_eq in H6. rewrite H6. reflexivity. }
    destruct (last_pass pre w post _ SigBreak Hrun ltac:(discriminate) Hbody)
      as (Hp & _ & Hlen & Hs).
    destruct (last_pass pre w [] _ SigBreak Hrun ltac:(discriminate) Hbody)
      as (Hp' & _ & _ & _).
    assert (Hsame : passes (pre ++ w :: post) = passes (pre ++ [w]))
      by now rewrite Hp, Hp'.
    assert (Hmain : main W
              = ((t_startup W ++ List.concat (passes (pre ++ [w])))
                   ++ cleanup true, Finished)).
    { rewrite (main_started W Hstart), HW, Hs, Hsame. reflexivity. }
    repeat split; auto.
    rewrite Hmain. cbn [fst]. rewrite !count_app, passes_read_count.
    rewrite <- Hsame, Hlen. cbn. lia.
Qed.

(** ** Numerals *)

Ltac eval_digit :=
  match goal with
  | |- context [digit_value ?c] =>
      let v := eval vm_compute in (digit_value c) in
      change (digit_value c) with v
  end.

Lemma read_uint_acc (d : Decimal.uint) :
  forall acc,
    read_decimal (NilEmpty.string_of_uint d) (Zpos acc)
    = Some (Zpos (Pos.of_uint_acc d acc)).
Proof.
  induction d; intros acc;
    cbn [NilEmpty.string_of_uint read_decimal Pos.of_uint_acc];
    try reflexivity; eval_digit; rewrite <- IHd; f_equal; lia.
Qed.

Lemma read_uint_0 (d : Decimal.uint) :
  read_decimal (NilEmpty.string_of_uint d) 0 = Some (Z.of_N (Pos.of_uint d)).
Proof.
  induction d; cbn [NilEmpty.string_of_uint read_decimal Pos.of_uint];
    try reflexivity; eval_digit; [exact IHd|..];
    cbn [Z.of_N]; apply (read_uint_acc d).
Qed.

Lemma nzhead_not_D0 (d : Decimal.uint) :
  forall l, Decimal.nzhead d <> Decimal.D0 l.
Proof.
  induction d; intros l; cbn [Decimal.nzhead]; try discriminate. apply IHd.
Qed.

(** The library's printing of a natural number is its numeral. *)
Lemma str_nat_numeral (n : N) :
  numeral (NilZero.string_of_uint (N.to_uint n)) (Z.of_N n).
Proof.
  split.
  - assert (Hv : read_decimal (NilZero.string_of_uint (N.to_uint n)) 0
                 = Some (Z.of_N n)).
    { unfold NilZero.string_of_uint.
      destruct (N.to_uint n) eqn:E;
        try (rewrite <- E, read_uint_0;
             change (Pos.of_uint (N.to_uint n)) with (N.of_uint (N.to_uint n));
             now rewrite DecimalN.Unsigned.of_to).
      destruct n; discriminate || (exfalso; cbn in E;
        now apply (DecimalPos.Unsigned.to_uint_nonnil p)). }
    unfold decimal_value.
    destruct (NilZero.string_of_uint (N.to_uint n)) eqn:E; [|exact Hv].
    unfold NilZero.string_of_uint in E.
    destruct (N.to_uint n); discriminate.
  - destruct n as [|p]; [left; reflexivity|right].
    cbn [N.to_uint].
    pose proof (DecimalPos.Unsigned.to_of (Pos.to_uint p)) as Hn.
    rewrite DecimalPos.Unsigned.of_to in Hn. cbn [N.to_uint] in Hn.
    pose proof (DecimalPos.Unsigned.to_uint_nonzero p) as Hz.
    pose proof (DecimalPos.Unsigned.to_uint_nonnil p) as Hnil.
    destruct (Pos.to_uint p) as [|l|l|l|l|l|l|l|l|l|l] eqn:E;
      try congruence;
      try (cbn [NilZero.string_of_uint NilEmpty.string_of_uint];
           eexists; eexists; split; [reflexivity | discriminate]).
    exfalso. unfold Decimal.unorm in Hn. cbn [Decimal.nzhead] in Hn.
    destruct (Decimal.nzhead l) eqn:El; try discriminate.
    + injection Hn as ->. now apply Hz.
    + symmetry in Hn. rewrite <- El in Hn. now apply nzhead_not_D0 in Hn.
Qed.

Lemma str_int_numeral (v : Z) : 0 <= v -> numeral (str_int v) v.
Proof.
  intros Hv. pose proof (str_nat_numeral (Z.to_N v)) as H.
  rewrite Z2N.id in H by exact Hv.
  destruct v; [exact H | exact H | lia].
Qed.

Lemma str_int_digit (v : Z) :
  0 <= v <= 9 ->
  exists c, str_int v = String c "" /\ digit_value c = Some v.
Proof.
  intros Hv.
  assert (Hc : v = 0 \/ v = 1 \/ v = 2 \/ v = 3 \/ v = 4 \/ v = 5 \/ v = 6
               \/ v = 7 \/ v = 8 \/ v = 9) by lia.
  repeat (destruct Hc as [->|Hc]; [eexists; split; reflexivity|]).
  subst v. eexists; split; reflexivity.
Qed.

Lemma digit_value_range (c : ascii) (d : Z) :
  digit_value c = Some d -> 0 <= d <= 9.
Proof.
  unfold digit_value.
  destruct ((48 <=? Z.of_N (N_of_ascii c)) && (Z.of_N (N_of_ascii c) <=? 57))
    eqn:E; [|discriminate].
  apply andb_prop in E. destruct E as [E1 E2].
  apply Z.leb_le in E1, E2. intros H; injection H as <-. lia.
Qed.

Lemma digit_value_inj (c c' : ascii) (d : Z) :
  digit_value c = Some d -> digit_value c' = Some d -> c = c'.
Proof.
  unfold digit_value.
  destruct ((48 <=? Z.of_N (N_of_ascii c)) && _); [|discriminate].
  destruct ((48 <=? Z.of_N (N_of_ascii c')) && _); [|discriminate].
  intros H H'. injection H as H. injection H' as H'.
  assert (E : N_of_ascii c = N_of_ascii c') by lia.
  rewrite <- (ascii_N_embedding c), <- (ascii_N_embedding c'). now rewrite E.
Qed.

Lemma pow10_pos (s : string) : 0 < pow10 s.
Proof. apply Z.pow_pos_nonneg; lia. Qed.

Lemma pow10_cons (c : ascii) (s : string) : pow10 (String c s) = 10 * pow10 s.
Proof.
  unfold pow10. cbn [String.length].
  now rewrite Nat2Z.inj_succ, Z.pow_succ_r by lia.
Qed.

Lemma read_decimal_acc (s : string) :
  forall acc,
    read_decimal s acc
    = option_map (fun r => acc * pow10 s + r) (read_decimal s 0).
Proof.
  induction s as [|c s IH]; intros acc.
  - cbn. f_equal. unfold pow10. cbn. lia.
  - cbn [read_decimal]. destruct (digit_value c) as [d|]; [|reflexivity].
    rewrite (IH (10 * acc + d)), (IH (10 * 0 + d)), pow10_cons.
    destruct (read_decimal s 0) as [r|]; cbn [option_map]; [|reflexivity].
    f_equal. ring.
Qed.

Lemma read_decimal_bound (s : string) :
  forall r, read_decimal s 0 = Some r -> 0 <= r < pow10 s.
Proof.
  induction s as [|c s IH]; intros r H.
  - cbn in H. injection H as <-. unfold pow10. cbn. lia.
  - cbn [read_decimal] in H.
    destruct (digit_value c) as [d|] eqn:Ed; [|discriminate].
    pose proof (digit_value_range c d Ed) as Hd.
    rewrite read_decimal_acc in H.
    destruct (read_decimal s 0) as [r'|]; [|discriminate].
    cbn [option_map] in H. injection H as <-.
    specialize (IH r' eq_refl). rewrite pow10_cons. nia.
Qed.

Lemma read_decimal_inj (s : string) :
  forall s' v,
    String.length s = String.length s' ->
    read_decimal s 0 = Some v -> read_decimal s' 0 = Some v -> s = s'.
Proof.
  induction s as [|c s IH]; intros [|c' s'] v Hlen H H';
    cbn [String.length] in Hlen; try discriminate; [reflexivity|].
  cbn [read_decimal] in H, H'.
  destruct (digit_value c) as [d|] eqn:Ed; [|discriminate].
  destruct (digit_value c') as [d'|] eqn:Ed'; [|discriminate].
  pose proof (digit_value_range c d Ed).
  pose proof (digit_value_range c' d' Ed').
  rewrite read_decimal_acc in H, H'.
  destruct (read_decimal s 0) as [r|] eqn:Er; [|discriminate].
  destruct (read_decimal s' 0) as [r'|] eqn:Er'; [|discriminate].
  cbn [option_map] in H, H'. injection H as H. injection H' as H'.
  pose proof (read_decimal_bound s r Er).
  pose proof (read_decimal_bound s' r' Er').
  assert (Hp : pow10 s = pow10 s').
  { unfold pow10. injection Hlen as ->. reflexivity. }
  rewrite Hp in *. pose proof (pow10_pos s').
  assert (d = d') by nia. subst d'.
  assert (r = r') by nia. subst r'.
  f_equal.
  - eapply digit_value_inj; eassumption.
  - eapply IH; [now injection Hlen | reflexivity | exact Er'].
Qed.

Lemma canonical_value (s : string) (v : Z) :
  numeral s v ->
  (s = "0" /\ v = 0) \/
  (exists c s', s = String c s' /\ pow10 s' <= v < 10 * pow10 s').
Proof.
  intros [Hv [->|(c & s' & -> & Hc)]].
  - left. split; [reflexivity|]. cbn in Hv. congruence.
  - right. exists c, s'. split; [reflexivity|].
    unfold decimal_value in Hv. cbn [read_decimal] in Hv.
    destruct (digit_value c) as [d|] eqn:Ed; [|discriminate].
    pose proof (digit_value_range c d Ed).
    assert (d <> 0).
    { intros ->. apply Hc. eapply digit_value_inj; [exact Ed|reflexivity]. }
    rewrite read_decimal_acc in Hv.
    destruct (read_decimal s' 0) as [r|] eqn:Er; [|discriminate].
    cbn [option_map] in Hv. injection Hv as <-.
    pose proof (read_decimal_bound s' r Er). nia.
Qed.

(** A natural number has one numeral. *)
Lemma numeral_unique (s s' : string) (v : Z) :
  numeral s v -> numeral s' v -> s = s'.
Proof.
  intros H H'.
  destruct (canonical_value s v H) as [[-> Hv]|(c & s1 & -> & Hb)];
    destruct (canonical_value s' v H') as [[-> Hv']|(c' & s1' & -> & Hb')];
    try reflexivity.
  - pose proof (pow10_pos s1'). lia.
  - pose proof (pow10_pos s1). lia.
  - assert (Hlen : String.length s1 = String.length s1').
    { unfold pow10 in Hb, Hb'.
      destruct (Nat.lt_trichotomy (String.length s1) (String.length s1'))
        as [Hlt|[Heq|Hgt]]; [exfalso|exact Heq|exfalso].
      - assert (10 * 10 ^ Z.of_nat (String.length s1)
                <= 10 ^ Z.of_nat (String.length s1')).
        { rewrite <- Z.pow_succ_r by lia. apply Z.pow_le_mono_r; lia. }
        lia.
      - assert (10 * 10 ^ Z.of_nat (String.length s1')
                <= 10 ^ Z.of_nat (String.length s1)).
        { rewrite <- Z.pow_succ_r by lia. apply Z.pow_le_mono_r; lia. }
        lia. }
    destruct H as [H _], H' as [H' _]. unfold decimal_value in H, H'.
    eapply read_decimal_inj; [|exact H|exact H'].
    cbn [String.length]. now f_equal.
Qed.

(** ** Rounding to tenths *)

Lemma round_half_even_nearest (num den : Z) :
  0 < den -> nearest_even num den (round_half_even num den).
Proof.
  intros Hden. unfold nearest_even, round_half_even.
  pose proof (Z.div_mod num den ltac:(lia)) as Hdm.
  pose proof (Z.mod_pos_bound num den Hden) as Hr.
  destruct (2 * (num mod den) <? den) eqn:H1;
    [apply Z.ltb_lt in H1|apply Z.ltb_ge in H1].
  - split; nia.
  - destruct (den <? 2 * (num mod den)) eqn:H2;
      [apply Z.ltb_lt in H2|apply Z.ltb_ge in H2].
    + split; nia.
    + destruct (Z.even (num / den)) eqn:He.
      * split; [nia | intros _; exact He].
      * split; [nia|]. intros _. rewrite Z.even_add, He. reflexivity.
Qed.

Lemma nearest_even_unique (num den n1 n2 : Z) :
  0 < den -> nearest_even num den n1 -> nearest_even num den n2 -> n1 = n2.
Proof.
  intros Hden [H1 T1] [H2 T2].
  assert (Hd : n1 = n2 \/ n1 = n2 + 1 \/ n2 = n1 + 1) by nia.
  destruct Hd as [Hd|[Hd|Hd]]; [exact Hd| |]; exfalso.
  - assert (E1 : 2 * Z.abs (num - n1 * den) = den) by nia.
    assert (E2 : 2 * Z.abs (num - n2 * den) = den) by nia.
    specialize (T1 E1). specialize (T2 E2).
    rewrite Hd, Z.even_add, T2 in T1. discriminate.
  - assert (E1 : 2 * Z.abs (num - n1 * den) = den) by nia.
    assert (E2 : 2 * Z.abs (num - n2 * den) = den) by nia.
    specialize (T1 E1). specialize (T2 E2).
    rewrite Hd, Z.even_add, T1 in T2. discriminate.
Qed.

Lemma tenths_nearest (m : positive) (e : Z) : nearest_tenths m e (tenths m e).
Proof.
  unfold nearest_tenths, tenths.
  destruct (0 <=? e) eqn:H0; [apply Z.leb_le in H0|apply Z.leb_gt in H0].
  - rewrite Z.max_l, Z.max_r by lia. cbn [Z.pow]. unfold nearest_even. lia.
  - rewrite Z.max_r, Z.max_l by lia. rewrite Z.pow_0_r, Z.mul_1_r.
    apply round_half_even_nearest. apply Z.pow_pos_nonneg; lia.
Qed.

Lemma nearest_tenths_unique (m : positive) (e n1 n2 : Z) :
  nearest_tenths m e n1 -> nearest_tenths m e n2 -> n1 = n2.
Proof. apply nearest_even_unique. apply Z.pow_pos_nonneg; lia. Qed.

Lemma nearest_tenths_nonneg (m : positive) (e n : Z) :
  nearest_tenths m e n -> 0 <= n.
Proof.
  unfold nearest_tenths, nearest_even. intros [H _].
  assert (0 < 2 ^ Z.max (- e) 0) by (apply Z.pow_pos_nonneg; lia).
  assert (0 < 2 ^ Z.max e 0) by (apply Z.pow_pos_nonneg; lia).
  nia.
Qed.

(** ** The text the program builds is the text of the detection *)

Lemma fixed1_one_decimal (n : Z) : 0 <= n -> one_decimal (fixed1 n) n.
Proof.
  intros Hn. unfold one_decimal, fixed1.
  destruct (str_int_digit (n mod 10)) as (c & Hc & Hd).
  { pose proof (Z.mod_pos_bound n 10). lia. }
  exists (str_int (n / 10)), c. rewrite Hc. split; [reflexivity|].
  split; [|exact Hd]. apply str_int_numeral. apply Z.div_pos; lia.
Qed.

Lemma format_1f_writes (x : spec_float) : writes_confidence x (format_1f x).
Proof.
  destruct x as [sg|sg| |sg m e]; cbn [writes_confidence format_1f].
  - destruct sg; reflexivity.
  - destruct sg; reflexivity.
  - reflexivity.
  - exists (tenths m e), (fixed1 (tenths m e)).
    split; [apply tenths_nearest|]. split.
    + apply fixed1_one_decimal.
      apply (nearest_tenths_nonneg m e), tenths_nearest.
    + destruct sg; reflexivity.
Qed.

Lemma one_decimal_unique (s s' : string) (n : Z) :
  one_decimal s n -> one_decimal s' n -> s = s'.
Proof.
  intros (ip & c & -> & Hip & Hc) (ip' & c' & -> & Hip' & Hc').
  rewrite (numeral_unique ip ip' _ Hip Hip').
  now rewrite (digit_value_inj c c' _ Hc Hc').
Qed.

Lemma writes_confidence_unique (x : spec_float) (s s' : string) :
  writes_confidence x s -> writes_confidence x s' -> s = s'.
Proof.
  destruct x as [sg|sg| |sg m e]; cbn [writes_confidence];
    try (intros -> ->; reflexivity).
  intros (n & body & Hn & Hb & ->) (n' & body' & Hn' & Hb' & ->).
  rewrite (nearest_tenths_unique m e n' n Hn' Hn) in Hb'.
  now rewrite (one_decimal_unique body body' n Hb Hb').
Qed.

Lemma label_text_writes (d : Label) : writes_label d (label_text d).
Proof.
  exists (format_1f (Confidence d)). split; [apply format_1f_writes|reflexivity].
Qed.

Lemma writes_label_unique (d : Label) (t t' : string) :
  writes_label d t -> writes_label d t' -> t = t'.
Proof.
  intros (s & Hs & ->) (s' & Hs' & ->).
  now rewrite (writes_confidence_unique _ s s' Hs Hs').
Qed.

(** ** The text of a label *)

Lemma label_text_Cat : label_text Sample.Cat = "Cat (91.2%)".
Proof. vm_compute. reflexivity. Qed.

Lemma label_text_Table : label_text Sample.Table = "Table (78.5%)".
Proof. vm_compute. reflexivity. Qed.

(** C7: for every detection the text drawn is its name, a space, and in
    parentheses the confidence with one digit after the point followed by
    a percent sign; the texts are drawn in the order of the detections.
    The number is stated by what the text reads back as: for a finite
    confidence, an optional minus sign, the canonical decimal numeral of
    the whole part, a point and one digit, which together are the number
    of tenths nearest to the confidence (a tie going to the even digit);
    [0.0], [inf] and [nan] with their signs otherwise.  There is one text
    that reads so, and it is the one drawn.
    For the detections Cat 91.2 and Table 78.5 the overlay consists of a
    box, the text "Cat (91.2%)", a second box and the text
    "Table (78.5%)", and the second box and text lie strictly lower than
    the first (lower edge and text origin; and, for a font whose text
    height does not depend on the text, the second box begins below the
    lower edge of the first). *)
Theorem draw_labels_text {St : Type} (frame : Frame) (D : list Label)
        (st : St) :
  (exists frame' ops,
      draw_labels frame D st
      = ([EvLog DEBUG "Labels overlaid on frame."], st, inl frame') /\
      overlay frame' = overlay frame ++ ops /\
      Forall2 (fun d t =>
                 writes_label d t /\
                 (forall t', writes_label d t' -> t' = t))
              D (map fst (texts ops))) /\
  (exists frame' ops box1 box2 org1 org2,
      draw_labels frame [Sample.Cat; Sample.Table] st
      = ([EvLog DEBUG "Labels overlaid on frame."], st, inl frame') /\
      overlay frame' = overlay frame ++ ops /\
      boxes ops = [box1; box2] /\
      texts ops = [("Cat (91.2%)", org1); ("Table (78.5%)", org2)] /\
      box_bottom box1 < box_bottom box2 /\
      snd org1 < snd org2 /\
      (forall h0, (forall text, text_height text = h0) ->
                  box_top box1 < box_top box2 /\
                  box_bottom box1 < box_top box2)).
Proof.
  split.
  - exists (draw_labels_from 30 D frame), (boxes_at (anchors 30 D) D).
    destruct (draw_labels_from_layout D 30 frame) as [_ Hov].
    repeat split; [exact Hov|]. rewrite boxes_at_texts.
    clear Hov. induction D as [|d D IH]; cbn [map]; constructor; [|exact IH].
    split; [apply label_text_writes|].
    intros t' Ht'. apply (writes_label_unique d); [exact Ht'|].
    apply label_text_writes.
  - destruct (draw_labels_from_layout [Sample.Cat; Sample.Table] 30 frame)
      as [_ Hov].
    revert Hov. cbn [anchors boxes_at]. unfold box_at, step, text_height.
    rewrite label_text_Cat, label_text_Table.
    pose proof (getTextSize_nonneg "Cat (91.2%)") as HC.
    pose proof (getTextSize_nonneg "Table (78.5%)") as HT.
    destruct (getTextSize "Cat (91.2%)" font font_scale font_thickness)
      as [[w1 h1] b1] eqn:E1.
    destruct (getTextSize "Table (78.5%)" font font_scale font_thickness)
      as [[w2 h2] b2] eqn:E2.
    cbn [fst snd] in HC, HT. intros Hov.
    eexists. eexists. do 4 eexists.
    split; [reflexivity|]. split; [exact Hov|].
    cbn [app boxes texts]. repeat split.
    + unfold box_bottom; cbn [fst snd]. lia.
    + cbn [fst snd].
      pose proof (Z.div_pos b1 2). pose proof (Z.div_pos b2 2).
      pose proof (Z.div_le_upper_bound b1 2 b1).
      lia.
    + unfold box_top; cbn [fst snd].
      pose proof (H "Cat (91.2%)") as G1. pose proof (H "Table (78.5%)") as G2.
      rewrite E1 in G1. rewrite E2 in G2. cbn [fst snd] in G1, G2. lia.
    + unfold box_top, box_bottom; cbn [fst snd].
      pose proof (H "Cat (91.2%)") as G1. pose proof (H "Table (78.5%)") as G2.
      rewrite E1 in G1. rewrite E2 in G2. cbn [fst snd] in G1, G2. lia.
Qed.

(** * Further properties *)

(** ** A pass does not depend on the passes before it *)

Lemma body_memoryless (w : iteration) (st : locals) :
  fst (fst (loop_body w st)) = pass_trace w /\
  signal_status (snd (loop_body w st)) = pass_end w.
Proof.
  unfold pass_trace, pass_end.
  destruct (cap_read w) as [[[] frame]|e] eqn:H1.
  - destruct (imencode w frame) as [[[] buf]|e] eqn:H2.
    + destruct (detect_labels w (the_request buf)) as [r|e] eqn:H3.
      * rewrite !(body_shown w _ frame buf r H1 H2 H3). cbn [fst snd].
        split; [reflexivity|]. unfold after_show.
        destruct (imshow w _) as [[]|e1]; [|reflexivity].
        destruct (waitKey w) as [key|e2]; [|reflexivity].
        destruct (Z.land key 255 =? ord_q); reflexivity.
      * destruct (is_Exception e) eqn:H4.
        -- rewrite !(body_inference_error w _ frame buf e H1 H2 H3 H4).
           split; reflexivity.
        -- rewrite !(body_inference_escapes w _ frame buf e H1 H2 H3 H4).
           split; reflexivity.
    + rewrite !(body_encode_fails w _ frame buf H1 H2). split; reflexivity.
    + rewrite !(body_encode_raises w _ frame e H1 H2). split; reflexivity.
  - rewrite !(body_end_of_stream w _ frame H1). split; reflexivity.
  - rewrite !(body_read_raises w _ e H1). split; reflexivity.
Qed.

Lemma while_True_memoryless (ws : list iteration) :
  forall st,
    fst (fst (while_True loop_body ws st))
    = map pass_trace (firstn (begun (map pass_end ws)) ws) /\
    snd (while_True loop_body ws st) = first_end (map pass_end ws).
Proof.
  induction ws as [|w ws IH]; intros st.
  - split; reflexivity.
  - rewrite while_True_cons.
    destruct (body_memoryless w st) as [Ht Hs].
    destruct (loop_body w st) as [[t st1] r]. cbn [fst snd] in Ht, Hs.
    cbn [map first_end begun]. rewrite <- Hs. subst t.
    destruct r as [u|[| |e]]; cbn [signal_status];
      try (destruct (IH st1) as [IH1 IH2];
           destruct (while_True loop_body ws st1) as [[ts st2] s];
           cbn [fst snd firstn map] in *; now rewrite IH1, IH2);
      split; reflexivity.
Qed.

Lemma loop_status_first_end (ws : list iteration) :
  loop_status ws = first_end (map pass_end ws).
Proof.
  unfold loop_status, process_frames.
  destruct (while_True_memoryless ws (mkLocals None)) as [_ Hs].
  destruct (while_True loop_body ws (mkLocals None)) as [[ts st] s].
  exact Hs.
Qed.

Lemma passes_pass_traces (ws : list iteration) :
  passes ws = map pass_trace (firstn (begun (map pass_end ws)) ws).
Proof.
  unfold passes, process_frames.
  destruct (while_True_memoryless ws (mkLocals None)) as [Ht _].
  destruct (while_True loop_body ws (mkLocals None)) as [[ts st] s].
  exact Ht.
Qed.

Lemma first_end_app (a b : list status) :
  first_end (a ++ b)
  = match first_end a with Running => first_end b | s => s end.
Proof.
  induction a as [|[| |e] a IH]; cbn [app first_end]; auto.
Qed.

Lemma begun_le (l : list status) : (begun l <= List.length l)%nat.
Proof. induction l as [|[| |e] l IH]; cbn [begun List.length]; lia. Qed.

Lemma begun_all_running (l : list status) :
  Forall (fun s => s = Running) l ->
  begun l = List.length l /\ first_end l = Running.
Proof.
  induction 1 as [|s l Hs Hall [IH1 IH2]]; [split; reflexivity|].
  subst s. cbn [begun first_end List.length]. now rewrite IH1, IH2.
Qed.

(** X1: a session is the sequence of its passes, each run as if it were
    the first: the trace of every pass, and whether the loop goes on
    after it, depend on the answers of the world in that pass alone.  The
    loop stops at the first pass that ends it. *)
Theorem session_is_memoryless (ws : list iteration) :
  passes ws = map pass_trace (firstn (begun (map pass_end ws)) ws) /\
  loop_status ws = first_end (map pass_end ws) /\
  (List.length (passes ws) <= List.length ws)%nat /\
  (forall i t w,
      nth_error (passes ws) i = Some t -> nth_error ws i = Some w ->
      passes [w] = [t] /\ loop_status [w] = pass_end w).
Proof.
  split; [apply passes_pass_traces|]. split; [apply loop_status_first_end|].
  split.
  - rewrite passes_pass_traces, length_map, length_firstn.
    apply Nat.le_min_r.
  - intros i t w Ht Hw.
    assert (Hone : forall w0, passes [w0] = [pass_trace w0]).
    { intros w0. rewrite passes_pass_traces. cbn [map begun].
      destruct (pass_end w0); reflexivity. }
    assert (Hst : loop_status [w] = pass_end w).
    { rewrite loop_status_first_end. cbn [map first_end].
      destruct (pass_end w); reflexivity. }
    split; [|exact Hst]. rewrite Hone. f_equal.
    rewrite passes_pass_traces, nth_error_map in Ht.
    destruct (nth_error (firstn (begun (map pass_end ws)) ws) i) as [w'|] eqn:E;
      [|discriminate].
    cbn in Ht. injection Ht as <-.
    destruct (Nat.lt_ge_cases i (begun (map pass_end ws))) as [Hlt|Hge].
    + rewrite nth_error_firstn in E.
      destruct (Nat.ltb_spec i (begun (map pass_end ws))); [|lia].
      congruence.
    + assert (nth_error (firstn (begun (map pass_end ws)) ws) i = None).
      { apply nth_error_None. rewrite length_firstn. lia. }
      congruence.
Qed.

(** ** Failing passes *)

Lemma inference_fails_pass (w : iteration) :
  inference_fails w ->
  pass_end w = Running /\
  count is_detect (pass_trace w) = 1%nat /\
  count is_imshow (pass_trace w) = 0%nat /\
  count is_waitKey (pass_trace w) = 0%nat /\
  count is_error_log (pass_trace w) = 1%nat.
Proof.
  intros (frame & buf & e & H1 & H2 & H3 & H4).
  unfold pass_end, pass_trace.
  rewrite (body_inference_error w _ frame buf e H1 H2 H3 H4).
  rewrite H1, H2, H3, H4. repeat split; reflexivity.
Qed.

(** X3: while the inference call keeps failing, the loop neither ends nor
    backs off: however many passes fail in a row, the loop is still
    running after them, it has sent one request per pass, and it has
    shown no frame and never polled the exit key. *)
Theorem sustained_outage (ws : list iteration) :
  Forall inference_fails ws ->
  loop_status ws = Running /\
  List.length (passes ws) = List.length ws /\
  count is_detect (List.concat (passes ws)) = List.length ws /\
  count is_error_log (List.concat (passes ws)) = List.length ws /\
  count is_imshow (List.concat (passes ws)) = 0%nat /\
  count is_waitKey (List.concat (passes ws)) = 0%nat.
Proof.
  intros Hall.
  assert (Hrun : Forall (fun s => s = Running) (map pass_end ws)).
  { rewrite Forall_map. eapply Forall_impl; [|exact Hall].
    intros w Hw. now destruct (inference_fails_pass w Hw). }
  destruct (begun_all_running _ Hrun) as [Hb He].
  rewrite length_map in Hb.
  assert (Hp : passes ws = map pass_trace ws).
  { rewrite passes_pass_traces, Hb, firstn_all. reflexivity. }
  rewrite loop_status_first_end, Hp, length_map.
  split; [exact He|]. split; [reflexivity|].
  assert (Hcount : forall p n,
             (forall w, inference_fails w -> count p (pass_trace w) = n) ->
             count p (List.concat (map pass_trace ws))
             = (List.length ws * n)%nat).
  { intros p n Hp'. rewrite (count_concat p n), length_map; [reflexivity|].
    rewrite Forall_map. eapply Forall_impl; [|exact Hall]. exact Hp'. }
  repeat split.
  - rewrite (Hcount is_detect 1%nat); [lia|].
    intros w Hw. now destruct (inference_fails_pass w Hw) as (_ & ? & _).
  - rewrite (Hcount is_error_log 1%nat); [lia|].
    intros w Hw. now destruct (inference_fails_pass w Hw) as (_ & _ & _ & _ & ?).
  - rewrite (Hcount is_imshow 0%nat); [lia|].
    intros w Hw. now destruct (inference_fails_pass w Hw) as (_ & _ & ? & _).
  - rewrite (Hcount is_waitKey 0%nat); [lia|].
    intros w Hw. now destruct (inference_fails_pass w Hw) as (_ & _ & _ & ? & _).
Qed.

(** ** The order of the calls in a pass *)

Lemma shape_pipeline (w : iteration) (st : locals) (t : trace)
      (st' : locals) (r : unit + signal) :
  pass_shape w st t st' r ->
  exists frame buf shown k,
    (1 <= k <= 5)%nat /\
    calls t
    = firstn k [EvRead; EvImencode ".jpg" frame;
                EvDetectLabels (mkRequest (tobytes buf) 10 75);
                EvImshow "Live Labels" shown; EvWaitKey 1].
Proof.
  intros Hs.
  destruct Hs as [frame ?|e ?|frame buf ? ?|frame e ? ?|frame buf e ? ? ? ?
                  |frame buf e ? ? ? ?|frame buf resp H1 H2 H3].
  - exists frame, [], frame, 1%nat. split; [lia | reflexivity].
  - exists (mkFrame [] []), [], (mkFrame [] []), 1%nat.
    split; [lia | reflexivity].
  - exists frame, [], frame, 2%nat. split; [lia | reflexivity].
  - exists frame, [], frame, 2%nat. split; [lia | reflexivity].
  - exists frame, buf, frame, 3%nat. split; [lia | reflexivity].
  - exists frame, buf, frame, 3%nat. split; [lia | reflexivity].
  - exists frame, buf, (draw_labels_from 30 (get_Labels resp) frame).
    split_shown w;
      [exists 5%nat | exists 5%nat | exists 5%nat | exists 4%nat];
      (split; [lia | reflexivity]).
Qed.

Lemma shape_counts (w : iteration) (st : locals) (t : trace)
      (st' : locals) (r : unit + signal) :
  pass_shape w st t st' r ->
  (count is_detect t <= count is_read t)%nat /\
  (count is_imshow t <= count is_detect t)%nat /\
  (count is_waitKey t <= count is_imshow t)%nat.
Proof.
  intros Hs.
  destruct Hs as [frame ?|e ?|frame buf ? ?|frame e ? ?|frame buf e ? ? ? ?
                  |frame buf e ? ? ? ?|frame buf resp H1 H2 H3];
    try (repeat split; cbn; lia).
  split_shown w; repeat split; cbn; lia.
Qed.

Lemma count_concat_le (p q : event -> bool) (ts : list trace) :
  Forall (fun t => (count p t <= count q t)%nat) ts ->
  (count p (List.concat ts) <= count q (List.concat ts))%nat.
Proof.
  induction 1 as [|t ts Ht Hall IH]; cbn [List.concat]; [apply le_n|].
  rewrite !count_app. lia.
Qed.

(** X4: the calls of a pass form a pipeline that is never entered out of
    order: leaving the log lines aside, the calls of every pass are, in
    this order, an initial segment of: read the camera, encode the frame
    as .jpg, send the inference request (10 labels, confidence 75), show
    a frame in the window Live Labels, poll the keyboard for 1 ms.  So a
    pass never shows a frame before its request, never polls before it
    shows, and never makes one of these calls twice.  Over a whole
    session, no more requests are sent than frames were read, and no more
    frames are shown than requests were sent. *)
Theorem calls_form_a_pipeline (ws : list iteration) :
  (forall i t,
      nth_error (passes ws) i = Some t ->
      exists frame buf shown k,
        (1 <= k <= 5)%nat /\
        calls t
        = firstn k [EvRead; EvImencode ".jpg" frame;
                    EvDetectLabels (mkRequest (tobytes buf) 10 75);
                    EvImshow "Live Labels" shown; EvWaitKey 1]) /\
  count is_read (List.concat (passes ws)) = List.length (passes ws) /\
  (count is_detect (List.concat (passes ws))
   <= count is_read (List.concat (passes ws)))%nat /\
  (count is_imshow (List.concat (passes ws))
   <= count is_detect (List.concat (passes ws)))%nat /\
  (count is_waitKey (List.concat (passes ws))
   <= count is_imshow (List.concat (passes ws)))%nat.
Proof.
  split; [|split; [apply passes_read_count|repeat split]].
  - intros i t Hn.
    destruct (pass_has_shape ws i t Hn) as (w & st & st' & r & _ & Hs).
    exact (shape_pipeline _ _ _ _ _ Hs).
  - apply count_concat_le, passes_forall. intros w st t st' r Hs.
    pose proof (shape_counts _ _ _ _ _ Hs). lia.
  - apply count_concat_le, passes_forall. intros w st t st' r Hs.
    pose proof (shape_counts _ _ _ _ _ Hs). lia.
  - apply count_concat_le, passes_forall. intros w st t st' r Hs.
    pose proof (shape_counts _ _ _ _ _ Hs). lia.
Qed.

Lemma error_count_shape (w : iteration) (st : locals) (t : trace)
      (st' : locals) (r : unit + signal) :
  pass_shape w st t st' r ->
  (inference_fails w /\ count is_error_log t = 1%nat) \/
  (~ inference_fails w /\ count is_error_log t = 0%nat).
Proof.
  intros Hs.
  destruct Hs as [frame H1|e H1|frame buf H1 H2|frame e H1 H2
                  |frame buf e H1 H2 H3 H4|frame buf e H1 H2 H3 H4
                  |frame buf resp H1 H2 H3];
    try (right; split; [|reflexivity];
         intros (f & b & e0 & G1 & G2 & G3 & G4); congruence).
  - left. split; [|reflexivity]. exists frame, buf, e. now repeat split.
  - right. split.
    + intros (f & b & e0 & G1 & G2 & G3 & G4).
      assert (f = frame) by congruence. subst f.
      assert (b = buf) by congruence. subst b. congruence.
    + split_shown w; reflexivity.
Qed.

(** X5: the loop logs at level ERROR in exactly one situation: a pass
    carries one ERROR line when its inference call raised an exception
    that the loop catches, and none otherwise (not for an end of stream,
    not for an encoding failure, not for an exception that ends the
    loop). *)
Theorem error_logged_iff_inference_fails (ws : list iteration) :
  forall i t w,
    nth_error (passes ws) i = Some t ->
    nth_error ws i = Some w ->
    (inference_fails w -> count is_error_log t = 1%nat) /\
    (~ inference_fails w -> count is_error_log t = 0%nat).
Proof.
  intros i t w Hn Hw.
  destruct (pass_has_shape ws i t Hn) as (w' & st & st' & r & Hw' & Hs).
  assert (w' = w) by congruence. subst w'.
  destruct (error_count_shape _ _ _ _ _ Hs) as [[Hf Hc]|[Hf Hc]];
    split; intros; tauto.
Qed.

(** ** The exit key *)

Lemma land_255 (key : Z) : Z.land key 255 = key mod 256.
Proof. change 255 with (Z.ones 8). now rewrite Z.land_ones. Qed.

(** X6: only the low byte of the key code counts: after a pass that
    polled the keyboard the loop has ended exactly when the key code is
    113 modulo 256.  So a code with higher bits set above [q] ends the
    loop as [q] does, and -1 (no key pressed) does not. *)
Theorem exit_key_low_byte (pre : list iteration) (w : iteration) (key : Z) :
  loop_status pre = Running ->
  reaches_poll w ->
  waitKey w = Ret key ->
  loop_status (pre ++ [w])
  = (if key mod 256 =? 113 then Exited else Running) /\
  (forall n post, key = 113 + 256 * n ->
                  loop_status (pre ++ w :: post) = Exited) /\
  (key = -1 -> loop_status (pre ++ [w]) = Running).
Proof.
  intros Hrun (frame & buf & r & H1 & H2 & H3 & H4) Hkey.
  assert (Hend : pass_end w = if key mod 256 =? 113 then Exited else Running).
  { unfold pass_end. rewrite H1, H2, H3, H4, Hkey, land_255. reflexivity. }
  assert (Hst : forall post,
             loop_status (pre ++ w :: post)
             = match pass_end w with
               | Running => first_end (map pass_end post)
               | s => s
               end).
  { intros post. rewrite loop_status_first_end, map_app, first_end_app.
    rewrite <- loop_status_first_end, Hrun. cbn [map first_end].
    destruct (pass_end w); reflexivity. }
  split; [|split].
  - rewrite Hst, Hend. destruct (key mod 256 =? 113); reflexivity.
  - intros n post ->. rewrite Hst, Hend.
    replace ((113 + 256 * n) mod 256) with 113; [reflexivity|].
    rewrite (Z.mul_comm 256 n), Z_mod_plus_full. reflexivity.
  - intros ->. rewrite Hst, Hend. reflexivity.
Qed.

(** ** The pass that ends the loop *)

Lemma ending_pass (pre : list iteration) (w : iteration)
      (post : list iteration) :
  loop_status pre = Running ->
  pass_end w <> Running ->
  passes (pre ++ w :: post) = passes pre ++ [pass_trace w] /\
  List.length (passes (pre ++ w :: post)) = (List.length pre + 1)%nat /\
  loop_status (pre ++ w :: post) = pass_end w.
Proof.
  intros Hrun Hend.
  assert (Hbody : forall st, exists st',
             loop_body w st
             = (pass_trace w, st',
                inr match pass_end w with
                    | Raised e => SigRaise e
                    | _ => SigBreak
                    end)).
  { intros st. destruct (body_memoryless w st) as [Ht Hs].
    destruct (loop_body w st) as [[t st'] r]. cbn [fst snd] in Ht, Hs.
    exists st'. subst t. rewrite <- Hs in *.
    destruct r as [u|[| |e]]; cbn [signal_status] in *;
      congruence. }
  destruct (last_pass pre w post (pass_trace w)
              (match pass_end w with
               | Raised e => SigRaise e
               | _ => SigBreak
               end) Hrun) as (Hp & _ & Hlen & Hs).
  - destruct (pass_end w); discriminate.
  - exact Hbody.
  - repeat split; auto. rewrite Hs. destruct (pass_end w); congruence.
Qed.

Lemma main_started_ended (W : world) (s : status) :
  started W ->
  loop_status (iterations W) = s ->
  s <> Running ->
  main W
  = ((t_startup W ++ List.concat (passes (iterations W)))
       ++ match s with Raised e => main_except_log e | _ => [] end
       ++ cleanup true,
     match s with
     | Raised e => if is_Exception e then Finished else Propagated e
     | _ => Finished
     end).
Proof.
  intros Hstart Hs Hne. rewrite (main_started W Hstart), Hs.
  destruct s as [| |e]; [congruence|reflexivity|].
  unfold main_except_log.
  destruct (is_RuntimeError e) eqn:Hr.
  - assert (is_Exception e = true) as ->; [|reflexivity].
    destruct (is_Exception e) eqn:He; [reflexivity|].
    now rewrite (RuntimeError_is_Exception e He) in Hr.
  - destruct (is_Exception e); reflexivity.
Qed.

Lemma count_main_except_log (p : event -> bool) (e : exn) :
  (forall lvl msg, p (EvLog lvl msg) = false) ->
  count p (main_except_log e) = 0%nat.
Proof.
  intros Hp. unfold main_except_log.
  destruct (is_RuntimeError e); [|destruct (is_Exception e)];
    unfold count; cbn [filter]; rewrite ?Hp; reflexivity.
Qed.

(** X7: an exception raised by the camera, the encoder, the display or
    the keyboard (or one raised by the service that is no [Exception]) is
    not retried: it ends the loop with that pass, whatever its class.
    [main] then logs it once, as a runtime error or as an unexpected
    error, runs the cleanup stage with a release, and returns normally
    when the exception is an [Exception]; otherwise the exception leaves
    [main] after the cleanup. *)
Theorem loop_exception_ends_session
        (W : world) (pre : list iteration) (w : iteration)
        (post : list iteration) (e : exn) :
  started W ->
  iterations W = pre ++ w :: post ->
  loop_status pre = Running ->
  pass_end w = Raised e ->
  loop_status (iterations W) = Raised e /\
  passes (iterations W) = passes pre ++ [pass_trace w] /\
  count is_error_log (pass_trace w) = 0%nat /\
  main W
  = ((t_startup W ++ List.concat (passes pre ++ [pass_trace w]))
       ++ main_except_log e ++ cleanup true,
     if is_Exception e then Finished else Propagated e) /\
  count is_release (fst (main W)) = 1%nat.
Proof.
  intros Hstart HW Hrun Hend.
  destruct (ending_pass pre w post Hrun) as (Hp & Hlen & Hs);
    [congruence|].
  rewrite <- HW in Hp, Hs. rewrite Hend in Hs.
  assert (Hmain := main_started_ended W (Raised e) Hstart Hs ltac:(discriminate)).
  rewrite Hp in Hmain.
  split; [exact Hs|]. split; [exact Hp|]. split; [|split; [exact Hmain|]].
  - destruct (error_count_shape w _ _ _ _ (body_shape w (mkLocals None)))
      as [[Hf Hc]|[Hf Hc]]; [|exact Hc].
    destruct (inference_fails_pass w Hf) as [Hrunning _]. congruence.
  - rewrite Hmain. cbn [fst]. rewrite <- Hp, !count_app.
    rewrite (loop_events_only is_release (iterations W) release_not_in_loop).
    rewrite count_main_except_log by reflexivity. reflexivity.
Qed.

(** X8: the end of the stream is a graceful end: when the camera delivers
    no frame, the pass consists of the read and a warning (the frame is
    neither encoded nor sent nor shown), the loop is left by [break], and
    [main] goes straight to the cleanup stage and returns normally,
    without logging an error. *)
Theorem end_of_stream_is_graceful
        (W : world) (pre : list iteration) (w : iteration)
        (post : list iteration) (frame : Frame) :
  started W ->
  iterations W = pre ++ w :: post ->
  loop_status pre = Running ->
  cap_read w = Ret (false, frame) ->
  loop_status (iterations W) = Exited /\
  passes (iterations W)
  = passes pre
    ++ [t_read ++ [EvLog WARNING
                     "Failed to retrieve frame from camera. Exiting loop."]] /\
  main W
  = ((t_startup W
        ++ List.concat
             (passes pre
              ++ [t_read ++ [EvLog WARNING
                     "Failed to retrieve frame from camera. Exiting loop."]]))
       ++ cleanup true,
     Finished) /\
  count is_error_log (fst (main W))
  = count is_error_log (List.concat (passes pre)).
Proof.
  intros Hstart HW Hrun H1.
  assert (Hend : pass_end w = Exited) by (unfold pass_end; now rewrite H1).
  assert (Ht : pass_trace w
               = t_read ++ [EvLog WARNING
                     "Failed to retrieve frame from camera. Exiting loop."]).
  { unfold pass_trace. now rewrite (body_end_of_stream w _ frame H1). }
  destruct (ending_pass pre w post Hrun) as (Hp & Hlen & Hs);
    [congruence|].
  rewrite <- HW, Ht in Hp. rewrite <- HW, Hend in Hs.
  assert (Hmain := main_started_ended W Exited Hstart Hs ltac:(discriminate)).
  rewrite Hp in Hmain. cbn [app] in Hmain.
  split; [exact Hs|]. split; [exact Hp|]. split; [exact Hmain|].
  rewrite Hmain. cbn [fst]. rewrite !count_app, concat_app, count_app.
  replace (count is_error_log (t_startup W)) with 0%nat by reflexivity.
  replace (count is_error_log (cleanup true)) with 0%nat by reflexivity.
  cbn [List.concat]. rewrite app_nil_r.
  replace (count is_error_log
             (t_read ++ [EvLog WARNING
                "Failed to retrieve frame from camera. Exiting loop."]))
    with 0%nat by reflexivity.
  lia.
Qed.

(** ** Start-up failures *)

(** X9: when either credential is unset or empty, no client is created
    and no camera is opened: [initialize_rekognition] logs the error and
    exits with status 1.  The exit is no [Exception], so neither handler
    of [main] logs it; the cleanup stage runs without a release, and the
    exit leaves [main]. *)
Theorem credentials_missing_aborts (W : world) :
  truthy (getenv W "AWS_ACCESS_KEY_ID") = false \/
  truthy (getenv W "AWS_SECRET_ACCESS_KEY") = false ->
  main W
  = ([EvLog ERROR
        "AWS credentials (AWS_ACCESS_KEY_ID, AWS_SECRET_ACCESS_KEY) not found."]
       ++ cleanup false,
     Propagated (mkExn SystemExit "1")) /\
  count is_client (fst (main W)) = 0%nat /\
  count is_videocapture (fst (main W)) = 0%nat /\
  count is_read (fst (main W)) = 0%nat /\
  count is_release (fst (main W)) = 0%nat /\
  count is_destroy (fst (main W)) = 1%nat.
Proof.
  intros H.
  assert (Hmain : main W
    = ([EvLog ERROR
          "AWS credentials (AWS_ACCESS_KEY_ID, AWS_SECRET_ACCESS_KEY) not found."]
         ++ cleanup false,
       Propagated (mkExn SystemExit "1"))).
  { unfold main, main_try, initialize_rekognition.
    destruct H as [H|H]; rewrite H;
      [|destruct (truthy (getenv W "AWS_ACCESS_KEY_ID"))]; reflexivity. }
  rewrite Hmain. repeat split; reflexivity.
Qed.

Lemma main_client_fails (W : world) (e : exn) :
  truthy (getenv W "AWS_ACCESS_KEY_ID") = true ->
  truthy (getenv W "AWS_SECRET_ACCESS_KEY") = true ->
  boto3_client W = Exc e ->
  main W
  = if is_Exception e then
      ([EvClient (getenv_str W "AWS_REGION");
        EvLog ERROR ("Error initializing Rekognition client: " ++ message e)%string]
         ++ cleanup false,
       Propagated (mkExn SystemExit "1"))
    else
      ([EvClient (getenv_str W "AWS_REGION")] ++ cleanup false, Propagated e).
Proof.
  intros Hk Hs Hc. unfold main, main_try, initialize_rekognition.
  rewrite Hk, Hs. cbn [negb orb].
  unfold try_except, bind, call, logging, emit, ret, sys_exit, stop.
  rewrite Hc. destruct (is_Exception e) eqn:He.
  - reflexivity.
  - cbn [fst snd]. rewrite (RuntimeError_is_Exception e He), He. reflexivity.
Qed.

(** X10: when creating the client raises an [Exception], whatever its
    class and message, [initialize_rekognition] logs it and turns it into
    an exit with status 1: [main] never sees the original exception (it
    logs neither a runtime error nor an unexpected error), the camera is
    never opened, and the cleanup stage runs without a release. *)
Theorem client_failure_exits (W : world) (e : exn) :
  truthy (getenv W "AWS_ACCESS_KEY_ID") = true ->
  truthy (getenv W "AWS_SECRET_ACCESS_KEY") = true ->
  boto3_client W = Exc e ->
  is_Exception e = true ->
  main W
  = ([EvClient (getenv_str W "AWS_REGION");
      EvLog ERROR ("Error initializing Rekognition client: " ++ message e)%string]
       ++ cleanup false,
     Propagated (mkExn SystemExit "1")) /\
  count is_error_log (fst (main W)) = 1%nat /\
  count is_videocapture (fst (main W)) = 0%nat /\
  count is_release (fst (main W)) = 0%nat /\
  count is_destroy (fst (main W)) = 1%nat.
Proof.
  intros Hk Hs Hc He.
  rewrite (main_client_fails W e Hk Hs Hc), He.
  repeat split; reflexivity.
Qed.





Lemma started_dec (W : world) : started W \/ ~ started W.
Proof.
  unfold started.
  destruct (truthy (getenv W "AWS_ACCESS_KEY_ID"));
    [|right; intros (H & _); discriminate].
  destruct (truthy (getenv W "AWS_SECRET_ACCESS_KEY"));
    [|right; intros (_ & H & _); discriminate].
  destruct (boto3_client W) as [[]|e];
    [|right; intros (_ & _ & H & _); discriminate].
  destruct (isOpened W);
    [left; now repeat split | right; intros (_ & _ & _ & H); discriminate].
Qed.

(** X12: the camera is released exactly when it was opened.  While the
    loop is running the camera is held (the session has started and
    nothing has been released); once [main] has ended, its trace contains
    a release if and only if the session had started, that is, the client
    was created and the camera opened: a camera that failed to open, or
    was never asked for, is not released. *)
Theorem release_iff_camera_opened (W : world) :
  (snd (main W) = StillRunning ->
   started W /\ count is_release (fst (main W)) = 0%nat) /\
  (snd (main W) <> StillRunning ->
   (count is_release (fst (main W)) = 1%nat <-> started W) /\
   (count is_release (fst (main W)) = 0%nat <-> ~ started W)).
Proof.
  destruct (started_dec W) as [Hstart|Hns].
  - pose proof (loop_events_only is_release (iterations W) release_not_in_loop)
      as Hrel.
    destruct (loop_status (iterations W)) as [| |e] eqn:Hs.
    + rewrite (main_started W Hstart), Hs. cbn [fst snd]. split.
      * intros _. split; [exact Hstart|]. rewrite count_app, Hrel. reflexivity.
      * intros H. congruence.
    + rewrite (main_started_ended W Exited Hstart Hs) by discriminate.
      cbn [fst snd]. rewrite !count_app, Hrel. cbn.
      split; [discriminate|]. intros _. split; split; intros; try tauto; lia.
    + rewrite (main_started_ended W (Raised e) Hstart Hs) by discriminate.
      cbn [fst snd]. rewrite !count_app, Hrel.
      rewrite count_main_except_log by reflexivity. cbn.
      split; [destruct (is_Exception e); discriminate|].
      intros _. split; split; intros; try tauto; lia.
  - destruct (main_not_started W Hns) as (t & Ht & Hr & _ & Hend).
    rewrite Ht, count_app, Hr. cbn. split; [intros H; congruence|].
    intros _. split; split; intros; try tauto; try lia; try reflexivity.
Qed.

(** ** More on the label boxes *)

Lemma draw_labels_from_app (D1 D2 : list Label) :
  forall y0 frame,
    draw_labels_from y0 (D1 ++ D2) frame
    = draw_labels_from (advance y0 D1) D2 (draw_labels_from y0 D1 frame).
Proof.
  induction D1 as [|label rest IH]; intros y0 frame; [reflexivity|].
  cbn [app draw_labels_from]. unfold advance. cbn [fold_left].
  unfold step at 2.
  destruct (getTextSize (label_text label) font font_scale font_thickness)
    as [[w h] baseline].
  rewrite IH. reflexivity.
Qed.

(** X13: the drawing calls are issued incrementally: the calls made for
    the labels D1 followed by D2 are the calls made for D1, followed by
    the calls for D2 started from the anchor that D1 has reached.  So the
    rectangle and the text requested for a label (corners, string and
    origin) depend only on the labels before it, not on those after it.
    (This speaks of the calls to cv2.rectangle and cv2.putText, in order;
    what those calls do to the pixels is the imaging library's matter.) *)
Theorem draw_labels_is_incremental (D1 D2 : list Label) (y0 : Z)
        (frame : Frame) :
  draw_labels_from y0 (D1 ++ D2) frame
  = draw_labels_from (advance y0 D1) D2 (draw_labels_from y0 D1 frame) /\
  overlay (draw_labels_from y0 (D1 ++ D2) frame)
  = overlay (draw_labels_from y0 D1 frame)
    ++ boxes_at (anchors (advance y0 D1) D2) D2 /\
  (forall D2',
      firstn (List.length (boxes_at (anchors y0 D1) D1))
             (boxes_at (anchors y0 (D1 ++ D2)) (D1 ++ D2))
      = firstn (List.length (boxes_at (anchors y0 D1) D1))
               (boxes_at (anchors y0 (D1 ++ D2')) (D1 ++ D2'))).
Proof.
  assert (Hcalls : forall D,
             boxes_at (anchors y0 (D1 ++ D)) (D1 ++ D)
             = boxes_at (anchors y0 D1) D1
               ++ boxes_at (anchors (advance y0 D1) D) D).
  { intros D.
    destruct (draw_labels_from_layout (D1 ++ D) y0 (mkFrame [] [])) as [_ H].
    rewrite draw_labels_from_app in H.
    destruct (draw_labels_from_layout D (advance y0 D1)
                (draw_labels_from y0 D1 (mkFrame [] []))) as [_ H2].
    destruct (draw_labels_from_layout D1 y0 (mkFrame [] [])) as [_ H1].
    rewrite H2, H1 in H. cbn [overlay app] in H. now symmetry. }
  split; [apply draw_labels_from_app|]. split.
  - rewrite draw_labels_from_app.
    now destruct (draw_labels_from_layout D2 (advance y0 D1)
                    (draw_labels_from y0 D1 frame)).
  - intros D2'. rewrite !Hcalls.
    rewrite !firstn_app, !Nat.sub_diag, !firstn_all. reflexivity.
Qed.

Lemma text_in_box_at (D : list Label) :
  forall y0,
    Forall2 (fun b t =>
               fst (fst b) = 5 /\ fst (snd t) = 10 /\
               box_top b < snd (snd t) <= box_bottom b)
            (boxes (boxes_at (anchors y0 D) D))
            (texts (boxes_at (anchors y0 D) D)).
Proof.
  induction D as [|label rest IH]; intros y0; cbn [anchors boxes_at];
    [constructor|].
  rewrite boxes_app, texts_app.
  specialize (IH (y0 + step label)). unfold box_at.
  pose proof (getTextSize_nonneg (label_text label)) as H.
  destruct (getTextSize (label_text label) font font_scale font_thickness)
    as [[w h] b]. cbn [fst snd] in H.
  cbn [boxes texts app]. constructor; [|exact IH].
  unfold box_top, box_bottom. cbn [fst snd].
  pose proof (Z.div_pos b 2). pose proof (Z.div_le_upper_bound b 2 b). lia.
Qed.

(** X14: every text is written inside its own background box: the
    overlay holds as many texts as boxes, and for each pair the box
    begins at x = 5, the text at x = 10, and the origin of the text lies
    below the upper edge of the box and not below its lower edge. *)
Theorem text_lies_in_its_box (frame : Frame) (D : list Label) :
  exists ops,
    overlay (draw_labels_from 30 D frame) = overlay frame ++ ops /\
    List.length (texts ops) = List.length (boxes ops) /\
    Forall2 (fun b t =>
               fst (fst b) = 5 /\ fst (snd t) = 10 /\
               box_top b < snd (snd t) <= box_bottom b)
            (boxes ops) (texts ops).
Proof.
  exists (boxes_at (anchors 30 D) D).
  destruct (draw_labels_from_layout D 30 frame) as [_ Hov].
  split; [exact Hov|].
  pose proof (text_in_box_at D 30) as H.
  split; [symmetry; eapply Forall2_length; exact H | exact H].
Qed.

Lemma anchors_uniform (s : Z) (D : list Label) :
  (forall label, step label = s) ->
  forall y0 i,
    (i < List.length D)%nat ->
    nth_error (anchors y0 D) i = Some (y0 + Z.of_nat i * s).
Proof.
  intros Hs. induction D as [|label rest IH]; intros y0 i Hi;
    cbn [List.length] in Hi; [lia|].
  destruct i as [|i]; cbn [anchors nth_error].
  - f_equal. lia.
  - rewrite IH by lia. rewrite Hs. f_equal. lia.
Qed.

Lemma bottoms_of_anchors (D : list Label) (b0 : Z) :
  (forall text, snd (getTextSize text font font_scale font_thickness) = b0) ->
  forall y0,
    map box_bottom (boxes (boxes_at (anchors y0 D) D))
    = map (fun y => y + b0 + 5) (anchors y0 D).
Proof.
  intros Huni. induction D as [|label rest IH]; intros y0; simpl; auto.
  rewrite boxes_app, map_app, IH.
  specialize (Huni (label_text label)).
  unfold box_at in *.
  destruct (getTextSize _ _ _ _) as [[w h] b]. simpl in *. subst b0.
  reflexivity.
Qed.

(** X15: with a text measure whose height and baseline do not depend on
    the text (as for the fixed font, scale and thickness used here), the
    layout is an even column: label number i (from 0) has its anchor at
    30 + i (h + b + 20), its box from 25 - h + i (h + b + 20) down to
    35 + b + i (h + b + 20), and each box begins exactly 10 pixels below
    the lower edge of the one before it, so boxes never overlap.  There
    is no bound: the column runs on below any frame height. *)
Theorem uniform_layout (h0 b0 : Z) (frame : Frame) (D : list Label) :
  (forall text,
      text_height text = h0 /\
      snd (getTextSize text font font_scale font_thickness) = b0) ->
  exists ops,
    overlay (draw_labels_from 30 D frame) = overlay frame ++ ops /\
    (forall i,
        (i < List.length D)%nat ->
        nth_error (map box_top (boxes ops)) i
        = Some (25 - h0 + Z.of_nat i * (h0 + b0 + 20)) /\
        nth_error (map box_bottom (boxes ops)) i
        = Some (35 + b0 + Z.of_nat i * (h0 + b0 + 20))) /\
    (forall i top bottom,
        nth_error (map box_top (boxes ops)) (i + 1) = Some top ->
        nth_error (map box_bottom (boxes ops)) i = Some bottom ->
        top = bottom + 10).
Proof.
  intros Huni.
  assert (Hh : forall text, text_height text = h0) by (intros; apply Huni).
  assert (Hb : forall text,
             snd (getTextSize text font font_scale font_thickness) = b0)
    by (intros; apply Huni).
  assert (Hs : forall label, step label = h0 + b0 + 20).
  { intros label. unfold step.
    specialize (Hh (label_text label)). specialize (Hb (label_text label)).
    unfold text_height in Hh.
    destruct (getTextSize _ _ _ _) as [[w h] b]. cbn [fst snd] in *. lia. }
  exists (boxes_at (anchors 30 D) D).
  destruct (draw_labels_from_layout D 30 frame) as [_ Hov].
  split; [exact Hov|].
  rewrite (tops_of_anchors D h0 Hh), (bottoms_of_anchors D b0 Hb).
  assert (Hnth : forall i,
             (i < List.length D)%nat ->
             nth_error (map (fun y => y - h0 - 5) (anchors 30 D)) i
             = Some (25 - h0 + Z.of_nat i * (h0 + b0 + 20)) /\
             nth_error (map (fun y => y + b0 + 5) (anchors 30 D)) i
             = Some (35 + b0 + Z.of_nat i * (h0 + b0 + 20))).
  { intros i Hi. rewrite !nth_error_map.
    rewrite (anchors_uniform _ D Hs 30 i Hi). cbn [option_map].
    split; f_equal; lia. }
  split; [exact Hnth|].
  intros i top bottom Ht Hbt.
  assert (Hi : (i + 1 < List.length D)%nat).
  { assert (Hsome : nth_error (map (fun y => y - h0 - 5) (anchors 30 D)) (i + 1)
                     <> None) by congruence.
    apply nth_error_Some in Hsome.
    now rewrite length_map, anchors_length in Hsome. }
  destruct (Hnth (i + 1)%nat Hi) as [Ht' _].
  destruct (Hnth i ltac:(lia)) as [_ Hb'].
  assert (Etop : top = 25 - h0 + Z.of_nat (i + 1) * (h0 + b0 + 20))
    by congruence.
  assert (Ebot : bottom = 35 + b0 + Z.of_nat i * (h0 + b0 + 20))
    by congruence.
  rewrite Etop, Ebot.
  replace (Z.of_nat (i + 1)) with (Z.of_nat i + 1) by lia. ring.
Qed.

End Session.

(** * Concrete runs *)

Module Runs.
Import Sample.

Lemma sample_getTextSize_nonneg :
  forall text,
    0 <= snd (fst (getTextSize text font font_scale font_thickness)) /\
    0 <= snd (getTextSize text font font_scale font_thickness).
Proof. intros text. cbn. lia. Defined.

(** The formatting of a float with one decimal, on values and ties. *)
Example format_1f_samples :
  map format_1f
      [f91_2; f78_5;
       S754_finite false 1 (-2);                   (* 0.25 *)
       S754_finite false 3 (-2);                   (* 0.75 *)
       S754_finite false 3152519739159347 (-53);   (* 0.35 *)
       S754_finite false 7033355980557517 (-46);   (* 99.95 *)
       S754_finite true 5764607523034235 (-57);    (* -0.04 *)
       S754_zero false; S754_nan; S754_infinity true]
  = ["91.2"; "78.5"; "0.2"; "0.8"; "0.3"; "100.0"; "-0.0"; "0.0"; "nan"; "-inf"].
Proof. vm_compute. reflexivity. Qed.

(** A session of five answered passes: the fourth reads [q]. *)
Example session_passes :
  map (count is_waitKey)
      (passes getTextSize repr_response [pass_ok; pass_throttled; pass_encode_fails; pass_quit; pass_ok])
  = [1; 0; 0; 1]%nat /\
  loop_status getTextSize repr_response [pass_ok; pass_throttled; pass_encode_fails; pass_quit; pass_ok]
  = Exited.
Proof. vm_compute. split; reflexivity. Qed.

(** An interrupt is no [Exception]: it leaves the loop and [main], after
    the cleanup stage. *)
Example interrupt_leaves_the_loop :
  loop_status getTextSize repr_response [pass_ok; pass_interrupted; pass_ok]
  = Raised interrupted /\
  snd (main getTextSize repr_response
            (session true [pass_ok; pass_interrupted; pass_ok]))
  = Propagated interrupted /\
  count is_release
        (fst (main getTextSize repr_response
                   (session true [pass_ok; pass_interrupted; pass_ok])))
  = 1%nat.
Proof. vm_compute. repeat split; reflexivity. Qed.

(** Without [AWS_REGION] the script exits before [main] is called. *)
Example region_missing :
  script getTextSize repr_response (mkWorld (fun _ => None) (Ret tt) true [])
  = ([EvLog ERROR
        "AWS region (AWS_REGION) not found in environment variables or .env file."],
     Propagated (mkExn SystemExit "1")).
Proof. reflexivity. Qed.

(** A pass throttled by the service, between two good ones. *)
Lemma inference_failure_keeps_running_witness :
  (loop_status getTextSize repr_response [pass_ok] = Running /\
   cap_read pass_throttled = Ret (true, frame0) /\
   imencode pass_throttled frame0 = Ret (true, jpeg) /\
   detect_labels pass_throttled (the_request jpeg) = Exc throttled /\
   is_Exception throttled = true) /\
  loop_status getTextSize repr_response ([pass_ok] ++ [pass_throttled]) = Running /\
  loop_status getTextSize repr_response ([pass_ok] ++ pass_throttled :: [pass_ok])
  = loop_status getTextSize repr_response ([pass_ok] ++ [pass_ok]).
Proof.
  split; [repeat split|].
  destruct (inference_failure_keeps_running getTextSize repr_response [pass_ok] pass_throttled
              [pass_ok] frame0 jpeg throttled) as (_ & Hs & Hp & _);
    [reflexivity..|].
  split; [exact Hs | exact Hp].
Defined.

Lemma draw_labels_boxes_witness :
  List.length (boxes (boxes_at getTextSize (anchors getTextSize 30 [Cat; Table]) [Cat; Table]))
  = 2%nat /\
  StronglySorted Z.lt (anchors getTextSize 30 [Cat; Table]) /\
  StronglySorted Z.lt
    (map box_top (boxes (boxes_at getTextSize (anchors getTextSize 30 [Cat; Table]) [Cat; Table]))).
Proof.
  destruct (draw_labels_boxes getTextSize sample_getTextSize_nonneg frame0
              [Cat; Table] tt)
    as (frame' & _ & _ & _ & Hcount & _ & _ & _ & _ & Hsorted & _ & Htops).
  split; [exact Hcount|]. split; [exact Hsorted|].
  apply (Htops 14). intros text. reflexivity.
Defined.

Lemma encode_failure_skips_inference_witness :
  (loop_status getTextSize repr_response [pass_ok] = Running /\
   cap_read pass_encode_fails = Ret (true, frame0) /\
   imencode pass_encode_fails frame0 = Ret (false, [])) /\
  exists t,
    nth_error (passes getTextSize repr_response ([pass_ok] ++ pass_encode_fails :: [pass_ok])) 1
    = Some t /\
    count is_detect t = 0%nat.
Proof.
  split; [repeat split|].
  destruct (encode_failure_skips_inference getTextSize repr_response [pass_ok] pass_encode_fails
              [pass_ok] frame0 [])
    as (t & _ & Hn & Hc & _); [reflexivity..|].
  exists t. split; [exact Hn | exact Hc].
Defined.

Lemma inference_failure_skips_display_witness :
  (loop_status getTextSize repr_response [pass_ok] = Running /\
   cap_read pass_throttled = Ret (true, frame0) /\
   imencode pass_throttled frame0 = Ret (true, jpeg) /\
   detect_labels pass_throttled (the_request jpeg) = Exc throttled) /\
  exists t,
    nth_error (passes getTextSize repr_response ([pass_ok] ++ pass_throttled :: [pass_ok])) 1
    = Some t /\
    count is_imshow t = 0%nat /\
    count is_overlaid_log t = 0%nat.
Proof.
  split; [repeat split|].
  destruct (inference_failure_skips_display getTextSize repr_response [pass_ok] pass_throttled
              [pass_ok] frame0 jpeg throttled)
    as (t & Hn & Hi & Ho & _); [reflexivity..|].
  exists t. split; [exact Hn|]. split; [exact Hi | exact Ho].
Defined.

Lemma requests_carry_frame_bytes_witness :
  exists t,
    nth_error (passes getTextSize repr_response ([pass_ok] ++ pass_throttled :: [pass_ok])) 1
    = Some t /\
    In (EvDetectLabels (mkRequest jpeg 10 75)) t /\
    count is_detect t = 1%nat.
Proof.
  destruct (requests_carry_frame_bytes getTextSize repr_response
              ([pass_ok] ++ pass_throttled :: [pass_ok])) as [_ Hreach].
  apply (Hreach [pass_ok] pass_throttled [pass_ok] frame0 jpeg); reflexivity.
Defined.

Lemma missing_labels_show_plain_frame_witness :
  (loop_status getTextSize repr_response [pass_ok] = Running /\
   cap_read pass_no_labels = Ret (true, frame0) /\
   imencode pass_no_labels frame0 = Ret (true, jpeg) /\
   detect_labels pass_no_labels (the_request jpeg) = Ret (mkResponse None) /\
   Labels (mkResponse None) = None) /\
  exists t,
    nth_error (passes getTextSize repr_response ([pass_ok] ++ pass_no_labels :: [pass_ok])) 1
    = Some t /\
    count is_imshow t = 1%nat /\
    count is_error_log t = 0%nat /\
    loop_status getTextSize repr_response ([pass_ok] ++ [pass_no_labels]) = Running.
Proof.
  split; [repeat split|].
  destruct (missing_labels_show_plain_frame getTextSize repr_response [pass_ok] pass_no_labels
              [pass_ok] frame0 jpeg (mkResponse None))
    as (_ & t & rest & Hn & _ & Hi & He & _ & Hs); [reflexivity..|].
  exists t. split; [exact Hn|]. split; [exact Hi|]. split; [exact He|].
  apply (Hs (-1)); [reflexivity | reflexivity | discriminate].
Defined.

Lemma sample_started (ws : list iteration) :
  started (session true ws).
Proof. repeat split. Defined.

(** The three ways out: end of stream, the exit key, an exception. *)
Lemma cleanup_runs_once_witness :
  (started (session true [pass_ok; pass_end_of_stream; pass_ok]) /\
   loop_status getTextSize repr_response [pass_ok; pass_end_of_stream; pass_ok] <> Running /\
   loop_status getTextSize repr_response [pass_ok; pass_quit; pass_ok] <> Running /\
   loop_status getTextSize repr_response [pass_ok; pass_show_raises; pass_ok] <> Running) /\
  count is_release
        (fst (main getTextSize repr_response (session true [pass_ok; pass_end_of_stream; pass_ok])))
  = 1%nat /\
  count is_destroy
        (fst (main getTextSize repr_response (session true [pass_ok; pass_quit; pass_ok])))
  = 1%nat /\
  count is_release
        (fst (main getTextSize repr_response (session true [pass_ok; pass_show_raises; pass_ok])))
  = 1%nat.
Proof.
  split; [repeat split; discriminate|].
  split; [|split].
  - destruct (cleanup_runs_once getTextSize repr_response
                (session true [pass_ok; pass_end_of_stream; pass_ok])
                ) as [Hleft _].
    destruct Hleft as (t & _ & _ & _ & Hr & _);
      [apply sample_started | discriminate | exact Hr].
  - destruct (cleanup_runs_once getTextSize repr_response
                (session true [pass_ok; pass_quit; pass_ok])
                ) as [Hleft _].
    destruct Hleft as (t & _ & _ & _ & _ & Hd & _);
      [apply sample_started | discriminate | exact Hd].
  - destruct (cleanup_runs_once getTextSize repr_response
                (session true [pass_ok; pass_show_raises; pass_ok])
                ) as [Hleft _].
    destruct Hleft as (t & _ & _ & _ & Hr & _);
      [apply sample_started | discriminate | exact Hr].
Defined.

(** [100.0] is what reads as the tenths nearest to 99.95. *)
Lemma Sky_reads : writes_label Sky "Sky (100.0%)".
Proof.
  exists "100.0". split; [|reflexivity].
  exists 1000, "100.0". split; [|split; [|reflexivity]].
  - split; [vm_compute; discriminate | intros _; reflexivity].
  - exists "100", "0"%char. split; [reflexivity|]. split; [|reflexivity].
    split; [reflexivity | right; exists "1"%char, "00"; split;
                           [reflexivity | discriminate]].
Defined.

Lemma draw_labels_text_witness :
  (exists frame' ops box1 box2 org1 org2,
      draw_labels getTextSize frame0 [Cat; Table] tt
      = ([EvLog DEBUG "Labels overlaid on frame."], tt, inl frame') /\
      overlay frame' = overlay frame0 ++ ops /\
      boxes ops = [box1; box2] /\
      texts ops = [("Cat (91.2%)", org1); ("Table (78.5%)", org2)] /\
      box_bottom box1 < box_bottom box2) /\
  (exists frame' ops,
      draw_labels getTextSize frame0 [Sky] tt
      = ([EvLog DEBUG "Labels overlaid on frame."], tt, inl frame') /\
      overlay frame' = overlay frame0 ++ ops /\
      map fst (texts ops) = ["Sky (100.0%)"]).
Proof.
  split.
  - destruct (draw_labels_text getTextSize sample_getTextSize_nonneg frame0
                [Cat; Table] tt)
      as (_ & frame' & ops & box1 & box2 & org1 & org2
          & Hd & Hov & Hb & Ht & Hlt & _).
    exists frame', ops, box1, box2, org1, org2.
    split; [exact Hd|]. split; [exact Hov|]. split; [exact Hb|].
    split; [exact Ht | exact Hlt].
  - destruct (draw_labels_text getTextSize sample_getTextSize_nonneg frame0
                [Sky] tt)
      as ((frame' & ops & Hd & Hov & Hall) & _).
    exists frame', ops. split; [exact Hd|]. split; [exact Hov|].
    inversion Hall as [|d t D' ts [_ Huniq] Hrest Ed Et]. subst.
    inversion Hrest. subst.
    now rewrite (Huniq _ Sky_reads).
Defined.

Lemma camera_unopenable_witness :
  (truthy (getenv (session false [pass_ok]) "AWS_ACCESS_KEY_ID") = true /\
   truthy (getenv (session false [pass_ok]) "AWS_SECRET_ACCESS_KEY") = true /\
   boto3_client (session false [pass_ok]) = Ret tt /\
   isOpened (session false [pass_ok]) = false) /\
  snd (main getTextSize repr_response (session false [pass_ok])) = Finished /\
  count is_read (fst (main getTextSize repr_response (session false [pass_ok]))) = 0%nat /\
  count is_release (fst (main getTextSize repr_response (session false [pass_ok]))) = 0%nat /\
  count is_destroy (fst (main getTextSize repr_response (session false [pass_ok]))) = 1%nat.
Proof.
  split; [repeat split|].
  destruct (camera_unopenable getTextSize repr_response (session false [pass_ok]))
    as (Hm & Hr & Hl & Hd); [reflexivity..|].
  split; [now rewrite Hm|]. split; [exact Hr|]. split; [exact Hl | exact Hd].
Defined.

(** The exit key read on the second pass of three. *)
Lemma exit_key_checked_after_display_witness :
  (started (session true [pass_ok; pass_quit; pass_ok]) /\
   loop_status getTextSize repr_response [pass_ok] = Running /\
   reaches_poll getTextSize pass_quit /\
   ~ reaches_poll getTextSize pass_encode_fails /\
   waitKey pass_quit = Ret 113 /\
   Z.land 113 255 = ord_q) /\
  loop_status getTextSize repr_response [pass_ok; pass_quit; pass_ok] = Exited /\
  List.length (passes getTextSize repr_response [pass_ok; pass_quit; pass_ok]) = 2%nat /\
  count is_read (fst (main getTextSize repr_response (session true [pass_ok; pass_quit; pass_ok])))
  = 2%nat /\
  snd (main getTextSize repr_response (session true [pass_ok; pass_quit; pass_ok])) = Finished.
Proof.
  split.
  - repeat split.
    + exists frame0, jpeg, (mkResponse (Some [Cat; Table])). repeat split.
    + intros (f & b & r & H1 & H2 & _). cbn in H1, H2.
      injection H1 as <-. discriminate.
  - destruct (exit_key_checked_after_display getTextSize repr_response
                [pass_ok; pass_quit; pass_ok]) as [_ Hq].
    destruct (Hq (session true [pass_ok; pass_quit; pass_ok])
                 [pass_ok] pass_quit [pass_ok] frame0 jpeg
                 (mkResponse (Some [Cat; Table])) 113)
      as (Hs & _ & Hlen & Hreads & Hmain);
      [apply sample_started | reflexivity..|].
    split; [exact Hs|]. split; [exact Hlen|]. split; [exact Hreads|].
    now rewrite Hmain.
Defined.

(** C5 as worded fails on the code: a pass whose frame cannot be encoded
    ends in [continue] before the keyboard is polled. *)
Lemma exit_check_skipped :
  nth_error (passes getTextSize repr_response [pass_encode_fails; pass_ok]) 0
  = Some (t_encode frame0 ++ [EvLog WARNING "Failed to encode frame."]) /\
  count is_waitKey (t_encode frame0 ++ [EvLog WARNING "Failed to encode frame."])
  = 0%nat /\
  ~ exit_checked_once_in_every_pass getTextSize repr_response.
Proof.
  split; [reflexivity|]. split; [reflexivity|].
  intros H.
  specialize (H [pass_encode_fails; pass_ok] 0%nat _ eq_refl).
  discriminate H.
Defined.

End Runs.

(** * Concrete runs for the further properties *)

Module MoreRuns.
Import Sample MoreSamples.

Lemma session_is_memoryless_witness :
  passes getTextSize repr_response [pass_throttled]
  = [t_infer frame0 jpeg
     ++ [EvLog ERROR "Error calling Rekognition API: ThrottlingException"]] /\
  loop_status getTextSize repr_response [pass_throttled]
  = pass_end getTextSize pass_throttled.
Proof.
  destruct (session_is_memoryless getTextSize repr_response
              [pass_ok; pass_throttled; pass_quit]) as (_ & _ & _ & H).
  apply (H 1%nat); reflexivity.
Defined.

Lemma throttled_fails : inference_fails pass_throttled.
Proof. exists frame0, jpeg, throttled. repeat split. Defined.

Lemma sustained_outage_witness :
  Forall inference_fails [pass_throttled; pass_throttled; pass_throttled] /\
  loop_status getTextSize repr_response
              [pass_throttled; pass_throttled; pass_throttled] = Running /\
  count is_detect
        (List.concat (passes getTextSize repr_response
                             [pass_throttled; pass_throttled; pass_throttled]))
  = 3%nat /\
  count is_waitKey
        (List.concat (passes getTextSize repr_response
                             [pass_throttled; pass_throttled; pass_throttled]))
  = 0%nat.
Proof.
  assert (Hall : Forall inference_fails
                        [pass_throttled; pass_throttled; pass_throttled])
    by (repeat constructor; apply throttled_fails).
  split; [exact Hall|].
  destruct (sustained_outage getTextSize repr_response _ Hall)
    as (Hs & _ & Hd & _ & _ & Hw).
  split; [exact Hs|]. split; [exact Hd | exact Hw].
Defined.

Lemma calls_form_a_pipeline_witness :
  exists t shown,
    nth_error (passes getTextSize repr_response
                      [pass_throttled; pass_ok; pass_encode_fails]) 1 = Some t /\
    calls t
    = [EvRead; EvImencode ".jpg" frame0;
       EvDetectLabels (mkRequest jpeg 10 75);
       EvImshow "Live Labels" shown; EvWaitKey 1].
Proof.
  destruct (calls_form_a_pipeline getTextSize repr_response
              [pass_throttled; pass_ok; pass_encode_fails]) as [Hord _].
  destruct (Hord 1%nat _ eq_refl) as (frame & buf & shown & k & Hk & Hcalls).
  eexists. exists shown. split; [reflexivity|].
  rewrite Hcalls.
  assert (Hlen : List.length
                   (firstn k [EvRead; EvImencode ".jpg" frame;
                              EvDetectLabels (mkRequest (tobytes buf) 10 75);
                              EvImshow "Live Labels" shown; EvWaitKey 1])
                 = 5%nat) by (rewrite <- Hcalls; reflexivity).
  rewrite length_firstn in Hlen. cbn [List.length] in Hlen.
  assert (k = 5%nat) by lia. subst k. cbn [firstn] in *.
  assert (Hhd : nth_error
                  [EvRead; EvImencode ".jpg" frame;
                   EvDetectLabels (mkRequest (tobytes buf) 10 75);
                   EvImshow "Live Labels" shown; EvWaitKey 1] 1
                = Some (EvImencode ".jpg" frame0))
    by (rewrite <- Hcalls; reflexivity).
  assert (Hrq : nth_error
                  [EvRead; EvImencode ".jpg" frame;
                   EvDetectLabels (mkRequest (tobytes buf) 10 75);
                   EvImshow "Live Labels" shown; EvWaitKey 1] 2
                = Some (EvDetectLabels (mkRequest jpeg 10 75)))
    by (rewrite <- Hcalls; reflexivity).
  cbn [nth_error] in Hhd, Hrq. injection Hhd as ->. injection Hrq as Hb.
  unfold tobytes in *. now rewrite Hb.
Defined.

Lemma error_logged_iff_inference_fails_witness :
  exists t,
    nth_error (passes getTextSize repr_response
                      [pass_ok; pass_throttled; pass_encode_fails]) 1 = Some t /\
    count is_error_log t = 1%nat.
Proof.
  eexists. split; [reflexivity|].
  apply (error_logged_iff_inference_fails getTextSize repr_response
           [pass_ok; pass_throttled; pass_encode_fails] 1%nat _ pass_throttled);
    [reflexivity | reflexivity | apply throttled_fails].
Defined.

Lemma quit_high_reaches_poll : reaches_poll getTextSize pass_quit_high.
Proof. exists frame0, jpeg, (mkResponse (Some [Cat])). repeat split. Defined.

Lemma exit_key_low_byte_witness :
  (loop_status getTextSize repr_response [pass_ok] = Running /\
   reaches_poll getTextSize pass_quit_high /\
   waitKey pass_quit_high = Ret (113 + 256 * 4096)) /\
  loop_status getTextSize repr_response ([pass_ok] ++ pass_quit_high :: [pass_ok])
  = Exited.
Proof.
  split; [repeat split; apply quit_high_reaches_poll|].
  destruct (exit_key_low_byte getTextSize repr_response [pass_ok]
              pass_quit_high (113 + 256 * 4096))
    as (_ & H & _);
    [reflexivity | apply quit_high_reaches_poll | reflexivity |].
  apply (H 4096). reflexivity.
Defined.

Lemma loop_exception_ends_session_witness :
  (started (session true [pass_ok; pass_show_raises; pass_ok]) /\
   loop_status getTextSize repr_response [pass_ok] = Running /\
   pass_end getTextSize pass_show_raises = Raised no_display) /\
  loop_status getTextSize repr_response [pass_ok; pass_show_raises; pass_ok]
  = Raised no_display /\
  snd (main getTextSize repr_response
            (session true [pass_ok; pass_show_raises; pass_ok])) = Finished /\
  count is_release
        (fst (main getTextSize repr_response
                   (session true [pass_ok; pass_show_raises; pass_ok])))
  = 1%nat.
Proof.
  split; [repeat split|].
  destruct (loop_exception_ends_session getTextSize repr_response
              (session true [pass_ok; pass_show_raises; pass_ok])
              [pass_ok] pass_show_raises [pass_ok] no_display)
    as (Hs & _ & _ & Hm & Hr); [repeat split | reflexivity..|].
  split; [exact Hs|]. split; [now rewrite Hm | exact Hr].
Defined.

Lemma end_of_stream_is_graceful_witness :
  (started (session true [pass_ok; pass_end_of_stream; pass_ok]) /\
   loop_status getTextSize repr_response [pass_ok] = Running /\
   cap_read pass_end_of_stream = Ret (false, frame0)) /\
  loop_status getTextSize repr_response [pass_ok; pass_end_of_stream; pass_ok]
  = Exited /\
  snd (main getTextSize repr_response
            (session true [pass_ok; pass_end_of_stream; pass_ok])) = Finished.
Proof.
  split; [repeat split|].
  destruct (end_of_stream_is_graceful getTextSize repr_response
              (session true [pass_ok; pass_end_of_stream; pass_ok])
              [pass_ok] pass_end_of_stream [pass_ok] frame0)
    as (Hs & _ & Hm & _); [repeat split | reflexivity..|].
  split; [exact Hs | now rewrite Hm].
Defined.

Lemma credentials_missing_aborts_witness :
  truthy (getenv session_no_secret "AWS_SECRET_ACCESS_KEY") = false /\
  snd (main getTextSize repr_response session_no_secret)
  = Propagated (mkExn SystemExit "1") /\
  count is_client (fst (main getTextSize repr_response session_no_secret))
  = 0%nat /\
  count is_destroy (fst (main getTextSize repr_response session_no_secret))
  = 1%nat.
Proof.
  split; [reflexivity|].
  destruct (credentials_missing_aborts getTextSize repr_response
              session_no_secret) as (Hm & Hc & _ & _ & _ & Hd);
    [right; reflexivity|].
  split; [now rewrite Hm|]. split; [exact Hc | exact Hd].
Defined.

Lemma client_failure_exits_witness :
  (boto3_client session_client_fails = Exc bad_endpoint /\
   is_Exception bad_endpoint = true) /\
  snd (main getTextSize repr_response session_client_fails)
  = Propagated (mkExn SystemExit "1") /\
  count is_videocapture
        (fst (main getTextSize repr_response session_client_fails)) = 0%nat.
Proof.
  split; [repeat split|].
  destruct (client_failure_exits getTextSize repr_response
              session_client_fails bad_endpoint)
    as (Hm & _ & Hv & _); [reflexivity..|].
  split; [now rewrite Hm | exact Hv].
Defined.


Lemma release_iff_camera_opened_witness :
  (snd (main getTextSize repr_response (session false [pass_ok]))
   <> StillRunning /\
   ~ started (session false [pass_ok])) /\
  count is_release
        (fst (main getTextSize repr_response (session false [pass_ok])))
  = 0%nat.
Proof.
  assert (Hns : ~ started (session false [pass_ok]))
    by (intros (_ & _ & _ & H); discriminate H).
  split; [split; [discriminate | exact Hns]|].
  destruct (release_iff_camera_opened getTextSize repr_response
              (session false [pass_ok])) as [_ H].
  destruct H as [_ [_ H0]]; [discriminate|].
  apply H0. exact Hns.
Defined.

Lemma draw_labels_is_incremental_witness :
  exists ops,
    overlay (draw_labels_from getTextSize 30 ([Cat; Table] ++ [Dog]) frame0)
    = overlay (draw_labels_from getTextSize 30 [Cat; Table] frame0) ++ ops /\
    map fst (texts ops) = ["Dog (78.5%)"].
Proof.
  destruct (draw_labels_is_incremental getTextSize [Cat; Table] [Dog] 30 frame0)
    as (_ & H & _).
  eexists. split; [exact H|]. reflexivity.
Defined.

Lemma text_lies_in_its_box_witness :
  exists ops,
    overlay (draw_labels_from getTextSize 30 [Cat; Table] frame0)
    = overlay frame0 ++ ops /\
    List.length (texts ops) = List.length (boxes ops).
Proof.
  destruct (text_lies_in_its_box getTextSize Runs.sample_getTextSize_nonneg
              frame0 [Cat; Table]) as (ops & Hov & Hlen & _).
  exists ops. split; [exact Hov | exact Hlen].
Defined.

Lemma uniform_layout_witness :
  (forall text,
      text_height getTextSize text = 14 /\
      snd (getTextSize text font font_scale font_thickness) = 6) /\
  exists ops,
    overlay (draw_labels_from getTextSize 30 [Cat; Table; Dog] frame0)
    = overlay frame0 ++ ops /\
    nth_error (map box_top (boxes ops)) 2 = Some (25 - 14 + 2 * (14 + 6 + 20)) /\
    nth_error (map box_bottom (boxes ops)) 2 = Some (35 + 6 + 2 * (14 + 6 + 20)).
Proof.
  assert (Huni : forall text,
             text_height getTextSize text = 14 /\
             snd (getTextSize text font font_scale font_thickness) = 6)
    by (intros text; split; reflexivity).
  split; [exact Huni|].
  destruct (uniform_layout getTextSize 14 6 frame0 [Cat; Table; Dog] Huni)
    as (ops & Hov & Hnth & _).
  exists ops. split; [exact Hov|].
  apply (Hnth 2%nat). cbn. lia.
Defined.

End MoreRuns.
